(** * QuickBlog-tool: the software-metrics engine

    A shallow embedding of the metric functions of [src/tool.js] and of its
    near-duplicate entry point [src/unnamed/part_000]: [locMetrics],
    [halstead], [cyclomatic], [infoFlow], [liveVariableStats], [dispersion]
    and the aggregation loop of the main callback.

    Conventions.
    - JavaScript numbers that only ever hold counts are [nat] or [Z];
      numbers that go through [Math.log], [Math.log2], [Math.sqrt] or a
      division are real numbers ([R]); IEEE rounding is not modelled.
      Where the source divides by a value that can be zero the result is a
      [number], which adds [NaN] and the two infinities to the reals.
    - A JavaScript [Set] is a [gset], a [Map] is a [gmap]; a value that may
      be a string or [undefined] is an [option string].
    - The syntax tree is ESTree as acorn produces it; the traversal is
      acorn-walk's, whose [simple] and [ancestor] call the visitor of a node
      after the node's children have been walked. *)

From Stdlib Require Import Reals Lra.
From stdpp Require Import gmap strings list fin_maps pretty.

Local Close Scope R_scope.
Local Open Scope string_scope.
Local Open Scope list_scope.
Local Open Scope nat_scope.

#[local] Set Warnings "-clear-no-such-hyp".

(** ** ESTree syntax trees *)

(** The value of a [Literal] node.  [String(n.value)] is all the engine does
    with it; numbers, big integers and regular expressions carry the text
    that JavaScript's [String] gives for them. *)
Inductive literal_value : Type :=
  | LitString (s : string)
  | LitBoolean (b : bool)
  | LitNull
  | LitNumber (text : string)
  | LitBigInt (text : string)
  | LitRegExp (text : string).

(** One constructor per ESTree node type.  A constructor keeps the fields
    that acorn-walk descends into or that a visitor of the engine reads;
    [start] is kept where the engine reads it. *)
#[warnings="-register-all"]
Inductive node : Type :=
  | Identifier (name : string)
  | PrivateIdentifier (name : string)
  | Literal (value : literal_value)
  | Program (body : list node)
  | BlockStatement (body : list node)
  | StaticBlock (body : list node)
  | EmptyStatement
  | ExpressionStatement (expression : node)
  | ParenthesizedExpression (expression : node)
  | ChainExpression (expression : node)
  | IfStatement (test consequent : node) (alternate : option node)
  | LabeledStatement (label body : node)
  | BreakStatement
  | ContinueStatement
  | WithStatement (object body : node)
  | SwitchStatement (discriminant : node) (cases : list node)
  | SwitchCase (test : option node) (consequent : list node)
  | ReturnStatement (argument : option node)
  | YieldExpression (argument : option node)
  | AwaitExpression (argument : option node)
  | ThrowStatement (argument : node)
  | SpreadElement (argument : node)
  | TryStatement (block : node) (handler finalizer : option node)
  | CatchClause (param : option node) (body : node)
  | WhileStatement (test body : node)
  | DoWhileStatement (body test : node)
  | ForStatement (init test update : option node) (body : node)
  | ForInStatement (left right body : node)
  | ForOfStatement (left right body : node)
  | DebuggerStatement
  | FunctionDeclaration (id : option node) (params : list node) (body : node)
  | FunctionExpression (id : option node) (params : list node) (body : node)
  | ArrowFunctionExpression (start : nat) (params : list node) (body : node)
      (expression : bool)
  | VariableDeclaration (declarations : list node)
  | VariableDeclarator (id : node) (init : option node)
  | RestElement (argument : node)
  | ArrayPattern (elements : list (option node))
  | ObjectPattern (properties : list node)
  | AssignmentPattern (left right : node)
  | ThisExpression
  | Super
  | MetaProperty
  | ArrayExpression (elements : list (option node))
  | ObjectExpression (properties : list node)
  | Property (computed : bool) (key value : node)
  | SequenceExpression (expressions : list node)
  | TemplateLiteral (quasis expressions : list node)
  | TemplateElement
  | TaggedTemplateExpression (tag quasi : node)
  | UnaryExpression (operator : string) (argument : node)
  | UpdateExpression (operator : string) (argument : node)
  | BinaryExpression (operator : string) (left right : node)
  | LogicalExpression (operator : string) (left right : node)
  | AssignmentExpression (operator : string) (left right : node)
  | ConditionalExpression (test consequent alternate : node)
  | NewExpression (callee : node) (arguments : list node)
  | CallExpression (callee : node) (arguments : list node)
  | MemberExpression (computed : bool) (object property : node)
  | ImportExpression (source : node)
  | ExportNamedDeclaration (declaration source : option node)
  | ExportDefaultDeclaration (declaration : node)
  | ExportAllDeclaration (exported : option node) (source : node)
  | ImportDeclaration (specifiers : list node) (source : node)
  | ImportSpecifier
  | ImportDefaultSpecifier
  | ImportNamespaceSpecifier
  | ClassDeclaration (id superClass : option node) (body : node)
  | ClassExpression (id superClass : option node) (body : node)
  | ClassBody (body : list node)
  | MethodDefinition (computed : bool) (key value : node)
  | PropertyDefinition (computed : bool) (key : node) (value : option node).

(** [node.type] *)
Definition node_type (n : node) : string :=
  match n with
  | Identifier _ => "Identifier"
  | PrivateIdentifier _ => "PrivateIdentifier"
  | Literal _ => "Literal"
  | Program _ => "Program"
  | BlockStatement _ => "BlockStatement"
  | StaticBlock _ => "StaticBlock"
  | EmptyStatement => "EmptyStatement"
  | ExpressionStatement _ => "ExpressionStatement"
  | ParenthesizedExpression _ => "ParenthesizedExpression"
  | ChainExpression _ => "ChainExpression"
  | IfStatement _ _ _ => "IfStatement"
  | LabeledStatement _ _ => "LabeledStatement"
  | BreakStatement => "BreakStatement"
  | ContinueStatement => "ContinueStatement"
  | WithStatement _ _ => "WithStatement"
  | SwitchStatement _ _ => "SwitchStatement"
  | SwitchCase _ _ => "SwitchCase"
  | ReturnStatement _ => "ReturnStatement"
  | YieldExpression _ => "YieldExpression"
  | AwaitExpression _ => "AwaitExpression"
  | ThrowStatement _ => "ThrowStatement"
  | SpreadElement _ => "SpreadElement"
  | TryStatement _ _ _ => "TryStatement"
  | CatchClause _ _ => "CatchClause"
  | WhileStatement _ _ => "WhileStatement"
  | DoWhileStatement _ _ => "DoWhileStatement"
  | ForStatement _ _ _ _ => "ForStatement"
  | ForInStatement _ _ _ => "ForInStatement"
  | ForOfStatement _ _ _ => "ForOfStatement"
  | DebuggerStatement => "DebuggerStatement"
  | FunctionDeclaration _ _ _ => "FunctionDeclaration"
  | FunctionExpression _ _ _ => "FunctionExpression"
  | ArrowFunctionExpression _ _ _ _ => "ArrowFunctionExpression"
  | VariableDeclaration _ => "VariableDeclaration"
  | VariableDeclarator _ _ => "VariableDeclarator"
  | RestElement _ => "RestElement"
  | ArrayPattern _ => "ArrayPattern"
  | ObjectPattern _ => "ObjectPattern"
  | AssignmentPattern _ _ => "AssignmentPattern"
  | ThisExpression => "ThisExpression"
  | Super => "Super"
  | MetaProperty => "MetaProperty"
  | ArrayExpression _ => "ArrayExpression"
  | ObjectExpression _ => "ObjectExpression"
  | Property _ _ _ => "Property"
  | SequenceExpression _ => "SequenceExpression"
  | TemplateLiteral _ _ => "TemplateLiteral"
  | TemplateElement => "TemplateElement"
  | TaggedTemplateExpression _ _ => "TaggedTemplateExpression"
  | UnaryExpression _ _ => "UnaryExpression"
  | UpdateExpression _ _ => "UpdateExpression"
  | BinaryExpression _ _ _ => "BinaryExpression"
  | LogicalExpression _ _ _ => "LogicalExpression"
  | AssignmentExpression _ _ _ => "AssignmentExpression"
  | ConditionalExpression _ _ _ => "ConditionalExpression"
  | NewExpression _ _ => "NewExpression"
  | CallExpression _ _ => "CallExpression"
  | MemberExpression _ _ _ => "MemberExpression"
  | ImportExpression _ => "ImportExpression"
  | ExportNamedDeclaration _ _ => "ExportNamedDeclaration"
  | ExportDefaultDeclaration _ => "ExportDefaultDeclaration"
  | ExportAllDeclaration _ _ => "ExportAllDeclaration"
  | ImportDeclaration _ _ => "ImportDeclaration"
  | ImportSpecifier => "ImportSpecifier"
  | ImportDefaultSpecifier => "ImportDefaultSpecifier"
  | ImportNamespaceSpecifier => "ImportNamespaceSpecifier"
  | ClassDeclaration _ _ _ => "ClassDeclaration"
  | ClassExpression _ _ _ => "ClassExpression"
  | ClassBody _ => "ClassBody"
  | MethodDefinition _ _ _ => "MethodDefinition"
  | PropertyDefinition _ _ _ => "PropertyDefinition"
  end.

(** Property reads.  A property that the node does not have reads as
    [undefined], which is [None]. *)

(** [n.name] *)
Definition node_name (n : node) : option string :=
  match n with
  | Identifier name | PrivateIdentifier name => Some name
  | _ => None
  end.

(** [n.operator] *)
Definition node_operator (n : node) : option string :=
  match n with
  | UnaryExpression op _ | UpdateExpression op _ => Some op
  | BinaryExpression op _ _ | LogicalExpression op _ _
  | AssignmentExpression op _ _ => Some op
  | _ => None
  end.

(** [n.id]; [null] and an absent property both read as [None]. *)
Definition node_id (n : node) : option node :=
  match n with
  | FunctionDeclaration id _ _ | FunctionExpression id _ _ => id
  | ClassDeclaration id _ _ | ClassExpression id _ _ => id
  | VariableDeclarator id _ => Some id
  | _ => None
  end.

(** [n.key] *)
Definition node_key (n : node) : option node :=
  match n with
  | Property _ key _ | MethodDefinition _ key _
  | PropertyDefinition _ key _ => Some key
  | _ => None
  end.

(** [n.callee] *)
Definition node_callee (n : node) : option node :=
  match n with
  | NewExpression callee _ | CallExpression callee _ => Some callee
  | _ => None
  end.

(** [n.start], for the one node type whose offset the engine reads. *)
Definition node_start (n : node) : nat :=
  match n with
  | ArrowFunctionExpression start _ _ _ => start
  | _ => 0
  end.

(** [String(n.value)] *)
Definition String_value (n : node) : string :=
  match n with
  | Literal (LitString s) => s
  | Literal (LitBoolean true) => "true"
  | Literal (LitBoolean false) => "false"
  | Literal LitNull => "null"
  | Literal (LitNumber t) | Literal (LitBigInt t) | Literal (LitRegExp t) => t
  | _ => "undefined"
  end.

(** ** acorn-walk *)

(** One call [c(node, st, override)] of the walker: the visitor looked up is
    [visitors[override || node.type]], and it receives [node]. *)
Definition visit : Type := string * node.

Module Walk.

Section base.
(** [c(node, st)] on a strict sub-node. *)
Variable walk : node → list visit.

(** [c(node, st, override)] for the overrides of acorn-walk's [base]:
    [Statement], [Expression] and [MemberPattern] skip through to the
    node's own type, [Pattern] and [ForInit] choose by the node's type. *)
Definition c_Expression (n : node) : list visit :=
  walk n ++ [("Expression", n)].

Definition c_Statement (n : node) : list visit :=
  walk n ++ [("Statement", n)].

Definition c_Pattern (n : node) : list visit :=
  match n with
  | Identifier _ => [("VariablePattern", n)]
  | MemberExpression _ _ _ => walk n ++ [("MemberPattern", n)]
  | _ => walk n
  end ++ [("Pattern", n)].

Definition c_ForInit (n : node) : list visit :=
  match n with
  | VariableDeclaration _ => walk n
  | _ => c_Expression n
  end ++ [("ForInit", n)].

Definition c_opt (c : node → list visit) (o : option node) : list visit :=
  match o with Some n => c n | None => [] end.
End base.

(** The visits caused by [c(n, st)], in the order in which the visitor
    callbacks run: [base[type](node, st, c)] walks the children first, then
    [visitors[type]] is called on the node itself. *)
Fixpoint walk (n : node) : list visit :=
  let Function_ (id : option node) (params : list node) (body : node)
        (expression : bool) : list visit :=
    (c_opt (c_Pattern walk) id ++ flat_map (c_Pattern walk) params ++
     (if expression then c_Expression walk body else c_Statement walk body))
    ++ [("Function", n)] in
  let Class_ (id superClass : option node) (body : node) : list visit :=
    (c_opt (c_Pattern walk) id ++ c_opt (c_Expression walk) superClass ++
     walk body) ++ [("Class", n)] in
  match n with
  | Program body | BlockStatement body | StaticBlock body =>
      flat_map (c_Statement walk) body
  | EmptyStatement | BreakStatement | ContinueStatement | DebuggerStatement =>
      []
  | ExpressionStatement e | ParenthesizedExpression e | ChainExpression e =>
      c_Expression walk e
  | IfStatement test consequent alternate =>
      c_Expression walk test ++ c_Statement walk consequent ++
      c_opt (c_Statement walk) alternate
  | LabeledStatement _ body => c_Statement walk body
  | WithStatement object body =>
      c_Expression walk object ++ c_Statement walk body
  | SwitchStatement discriminant cases =>
      c_Expression walk discriminant ++ flat_map walk cases
  | SwitchCase test consequent =>
      c_opt (c_Expression walk) test ++ flat_map (c_Statement walk) consequent
  | ReturnStatement argument | YieldExpression argument
  | AwaitExpression argument =>
      c_opt (c_Expression walk) argument
  | ThrowStatement argument | SpreadElement argument =>
      c_Expression walk argument
  | TryStatement block handler finalizer =>
      c_Statement walk block ++ c_opt walk handler ++
      c_opt (c_Statement walk) finalizer
  | CatchClause param body =>
      c_opt (c_Pattern walk) param ++ c_Statement walk body
  | WhileStatement test body | DoWhileStatement body test =>
      c_Expression walk test ++ c_Statement walk body
  | ForStatement init test update body =>
      c_opt (c_ForInit walk) init ++ c_opt (c_Expression walk) test ++
      c_opt (c_Expression walk) update ++ c_Statement walk body
  | ForInStatement lhs rhs body | ForOfStatement lhs rhs body =>
      c_ForInit walk lhs ++ c_Expression walk rhs ++ c_Statement walk body
  | FunctionDeclaration id params body | FunctionExpression id params body =>
      Function_ id params body false
  | ArrowFunctionExpression _ params body expression =>
      Function_ None params body expression
  | VariableDeclaration declarations => flat_map walk declarations
  | VariableDeclarator id init =>
      c_Pattern walk id ++ c_opt (c_Expression walk) init
  | RestElement argument => c_Pattern walk argument
  | ArrayPattern elements => flat_map (c_opt (c_Pattern walk)) elements
  | ObjectPattern properties =>
      flat_map (λ prop,
        match prop with
        | Property computed key value =>
            (if computed then c_Expression walk key else []) ++
            c_Pattern walk value
        | RestElement argument => c_Pattern walk argument
        | _ => []
        end) properties
  | ThisExpression | Super | MetaProperty | TemplateElement => []
  | Identifier _ | PrivateIdentifier _ | Literal _ => []
  | ImportSpecifier | ImportDefaultSpecifier | ImportNamespaceSpecifier => []
  | ArrayExpression elements => flat_map (c_opt (c_Expression walk)) elements
  | ObjectExpression properties => flat_map walk properties
  | SequenceExpression expressions => flat_map (c_Expression walk) expressions
  | TemplateLiteral quasis expressions =>
      flat_map walk quasis ++ flat_map (c_Expression walk) expressions
  | TaggedTemplateExpression tag quasi =>
      c_Expression walk tag ++ c_Expression walk quasi
  | UnaryExpression _ argument | UpdateExpression _ argument =>
      c_Expression walk argument
  | BinaryExpression _ lhs rhs | LogicalExpression _ lhs rhs =>
      c_Expression walk lhs ++ c_Expression walk rhs
  | AssignmentExpression _ lhs rhs | AssignmentPattern lhs rhs =>
      c_Pattern walk lhs ++ c_Expression walk rhs
  | ConditionalExpression test consequent alternate =>
      c_Expression walk test ++ c_Expression walk consequent ++
      c_Expression walk alternate
  | NewExpression callee arguments | CallExpression callee arguments =>
      c_Expression walk callee ++ flat_map (c_Expression walk) arguments
  | MemberExpression computed object property =>
      c_Expression walk object ++
      (if computed then c_Expression walk property else [])
  | ExportNamedDeclaration declaration source =>
      c_opt (c_Statement walk) declaration ++ c_opt (c_Expression walk) source
  | ExportDefaultDeclaration declaration =>
      match node_id declaration with
      | Some _ => c_Statement walk declaration
      | None => c_Expression walk declaration
      end
  | ExportAllDeclaration exported source =>
      c_opt walk exported ++ c_Expression walk source
  | ImportDeclaration specifiers source =>
      flat_map walk specifiers ++ c_Expression walk source
  | ImportExpression source => c_Expression walk source
  | ClassDeclaration id superClass body | ClassExpression id superClass body =>
      Class_ id superClass body
  | ClassBody body => flat_map walk body
  | MethodDefinition computed key value | Property computed key value =>
      (if computed then c_Expression walk key else []) ++
      c_Expression walk value
  | PropertyDefinition computed key value =>
      (if computed then c_Expression walk key else []) ++
      c_opt (c_Expression walk) value
  end ++ [(node_type n, n)].

(** A visitors object: callbacks keyed by node type. *)
Definition visitors (F : Type) : Type := list (string * F).

(** [visitors[type]] *)
Fixpoint visitor_for {F : Type} (vs : visitors F) (type : string) : option F :=
  match vs with
  | [] => None
  | (key, f) :: vs' =>
      if String.eqb key type then Some f else visitor_for vs' type
  end.

(** [if (visitors[type]) visitors[type](node, st)], with the closure
    variables that the callbacks assign as the state [S]. *)
Definition call {S : Type} (vs : visitors (node → S → S)) (st : S) (v : visit)
    : S :=
  match visitor_for vs v.1 with
  | Some f => f v.2 st
  | None => st
  end.

(** [walk.simple(ast, visitors)] *)
Definition simple {S : Type} (ast : node) (vs : visitors (node → S → S))
    (st : S) : S :=
  fold_left (call vs) (walk ast) st.

(** The same call for callbacks that can throw: [None] is the exception,
    which ends the walk. *)
Definition call_throwing {S : Type} (vs : visitors (node → S → option S))
    (st : option S) (v : visit) : option S :=
  match st with
  | None => None
  | Some s =>
      match visitor_for vs v.1 with
      | Some f => f v.2 s
      | None => Some s
      end
  end.

(** [walk.ancestor(ast, visitors)].  The array of ancestors that the
    callbacks receive is left out: no callback of the engine reads it. *)
Definition ancestor {S : Type} (ast : node)
    (vs : visitors (node → S → option S)) (st : S) : option S :=
  fold_left (call_throwing vs) (walk ast) (Some st).

End Walk.

(** The syntax tree acorn gives for
    [function a(){ b(); } function b(){}]. *)
Definition scenario_ast : node :=
  Program
    [ FunctionDeclaration (Some (Identifier "a")) []
        (BlockStatement
           [ExpressionStatement (CallExpression (Identifier "b") [])]);
      FunctionDeclaration (Some (Identifier "b")) [] (BlockStatement []) ].


(** ** JavaScript values *)

(** A string as JavaScript has it: a sequence of UTF-16 code units. *)
Abbreviation text := (list N).

(** White space and line terminators, the code units [trim] removes. *)
Definition is_white_space (c : N) : bool :=
  (((9 <=? c) && (c <=? 13)) || (c =? 32) || (c =? 160) || (c =? 5760) ||
   ((8192 <=? c) && (c <=? 8202)) || (c =? 8232) || (c =? 8233) ||
   (c =? 8239) || (c =? 8287) || (c =? 12288) || (c =? 65279))%N.

Fixpoint trim_start (s : text) : text :=
  match s with
  | c :: s' => if is_white_space c then trim_start s' else s
  | [] => []
  end.

(** [s.trim()] *)
Definition trim (s : text) : text := rev (trim_start (rev (trim_start s))).

(** [s.startsWith(p)] *)
Fixpoint startsWith (s p : text) : bool :=
  match p, s with
  | [], _ => true
  | c :: p', d :: s' => (c =? d)%N && startsWith s' p'
  | _ :: _, [] => false
  end.

(** [s.split("\n")]: never empty, the empty string gives one empty line. *)
Fixpoint split_newline (s : text) : list text :=
  match s with
  | [] => [[]]
  | c :: s' =>
      if (c =? 10)%N then [] :: split_newline s'
      else match split_newline s' with
           | l :: ls => (c :: l) :: ls
           | [] => [[c]]
           end
  end.

(** The code units of an ASCII string. *)
Definition units (s : string) : text :=
  map (λ a, N.of_nat (Ascii.nat_of_ascii a)) (String.list_ascii_of_string s).

(** [s.endsWith(p)] on names. *)
Definition endsWith (s p : string) : bool :=
  (String.length p <=? String.length s)%nat &&
  String.eqb (String.substring (String.length s - String.length p) (String.length p) s) p.

(** [x || d] for a string or [undefined]: the empty string is falsy. *)
Definition or_else (x : option string) (d : string) : string :=
  match x with
  | Some s => if String.eqb s "" then d else s
  | None => d
  end.

(** [!x] for a string or [undefined]. *)
Definition falsy (x : option string) : bool :=
  match x with
  | Some s => String.eqb s ""
  | None => true
  end.

(** A number that a division may have made non-finite. *)
Inductive number : Type :=
  | Fin (r : R)
  | NaN
  | Infinity (negative : bool).

Definition num_neg (x : number) : number :=
  match x with
  | Fin r => Fin (- r)%R
  | NaN => NaN
  | Infinity s => Infinity (negb s)
  end.

Definition num_add (x y : number) : number :=
  match x, y with
  | Fin a, Fin b => Fin (a + b)%R
  | NaN, _ | _, NaN => NaN
  | Infinity s, Infinity s' => if Bool.eqb s s' then Infinity s else NaN
  | Infinity s, Fin _ | Fin _, Infinity s => Infinity s
  end.

Definition num_sub (x y : number) : number := num_add x (num_neg y).

(** [x ** 2] *)
Definition num_square (x : number) : number :=
  match x with
  | Fin r => Fin (r * r)%R
  | NaN => NaN
  | Infinity _ => Infinity false
  end.

Definition is_zero (r : R) : bool := if Req_dec_T r 0 then true else false.
Definition is_negative (r : R) : bool := if Rlt_dec r 0 then true else false.

(** [x / y]; the sign of a zero is not modelled, a zero divisor counts as
    positive. *)
Definition num_div (x y : number) : number :=
  match x, y with
  | Fin a, Fin b =>
      if is_zero b then
        if is_zero a then NaN else Infinity (is_negative a)
      else Fin (a / b)%R
  | NaN, _ | _, NaN => NaN
  | Infinity _, Infinity _ => NaN
  | Infinity s, Fin b => Infinity (xorb s (is_negative b))
  | Fin _, Infinity _ => Fin 0%R
  end.

(** [Math.sqrt(x)] *)
Definition num_sqrt (x : number) : number :=
  match x with
  | Fin r => if is_negative r then NaN else Fin (sqrt r)
  | NaN => NaN
  | Infinity false => Infinity false
  | Infinity true => NaN
  end.

Definition is_finite (x : number) : Prop :=
  match x with Fin _ => True | _ => False end.

(** [Math.log2(x)] for positive [x]. *)
Definition log2 (x : R) : R := (ln x / ln 2)%R.

(** [x || 1] on a real number. *)
Definition or_one (x : R) : R := if is_zero x then 1%R else x.

(** ** The results of the metric functions *)

(** What [locMetrics] returns. *)
Record LineCounts : Type := mkLineCounts {
  total : Z;
  blank : Z;
  comment : Z;
  code : Z
}.

(** What [halstead] returns. *)
Record HalsteadTally : Type := mkHalsteadTally {
  h_n1 : nat;
  h_n2 : nat;
  h_N1 : nat;
  h_N2 : nat;
  h_n : nat;
  h_N : nat;
  volume : R;
  difficulty : R;
  effort : R;
  time : R;
  bugs : R
}.

(** An entry of the [functions] map of [infoFlow]. *)
Record FunctionNode : Type := mkFunctionNode {
  fanIn : gset (option string);
  fanOut : gset (option string)
}.

(** What [infoFlow] returns. *)
Record InfoFlow : Type := mkInfoFlow {
  functionCount : nat;
  totalFanIn : nat;
  totalFanOut : nat;
  avgFanIn : R;
  avgFanOut : R;
  totalInfoFlow : nat;
  grandTotal : nat
}.

(** What [liveVariableStats] returns. *)
Record VariableUsage : Type := mkVariableUsage {
  declared : nat;
  live : nat;
  loc : Z
}.

(** What [dispersion] returns. *)
Record Dispersion : Type := mkDispersion {
  mean : number;
  variance : number;
  stdDev : number
}.

(** The closure variables of the walks. *)
Record halstead_state : Type := mkHalsteadState {
  operators : gset (option string);
  operands : gset (option string);
  N1 : nat;
  N2 : nat
}.

Record infoFlow_state : Type := mkInfoFlowState {
  functions : gmap (option string) FunctionNode;
  currentFunction : option string
}.

Record variable_state : Type := mkVariableState {
  declared_names : gset (option string);
  used : gset (option string)
}.

(** The four totals of the loop over [functions.entries()]. *)
Record flow_totals : Type := mkFlowTotals {
  t_functionCount : nat;
  t_totalFanIn : nat;
  t_totalFanOut : nat;
  t_totalInfoFlow : nat
}.

(** ** The running totals of the main loop *)

(** A scanned file: its path and the text [fs.readFileSync] returns. *)
Record SourceFile : Type := mkSourceFile {
  path : string;
  content : text
}.

Record HalsteadTotals : Type := mkHalsteadTotals {
  sum_N1 : nat;
  sum_N2 : nat;
  sum_n1 : nat;
  sum_n2 : nat;
  sum_volume : R;
  sum_effort : R;
  sum_time : R;
  sum_bugs : R
}.

Record InfoFlowSummary : Type := mkInfoFlowSummary {
  sum_functionCount : nat;
  sum_totalFanIn : nat;
  sum_totalFanOut : nat;
  sum_totalInfoFlow : nat;
  sum_grandTotal : nat
}.

Record LiveTotals : Type := mkLiveTotals {
  totalVarsDeclared : nat;
  totalLiveVars : nat;
  maxLiveVars : nat;
  totalLOCForLive : Z;
  liveFileCount : nat
}.

(** The variables the loop over [files] assigns, and the lines it logs. *)
Record Aggregate : Type := mkAggregate {
  locArr : list Z;
  ccTotal : nat;
  totalHalstead : HalsteadTotals;
  infoFlowSummary : InfoFlowSummary;
  liveTotals : LiveTotals;
  skipped : list string
}.

Definition initial : Aggregate :=
  {| locArr := [];
     ccTotal := 0;
     totalHalstead := mkHalsteadTotals 0 0 0 0 0 0 0 0;
     infoFlowSummary := mkInfoFlowSummary 0 0 0 0 0;
     liveTotals := mkLiveTotals 0 0 0 0 0;
     skipped := [] |}.

(** [locArr.push(x)] *)
Definition push_loc (x : Z) (a : Aggregate) : Aggregate :=
  mkAggregate (locArr a ++ [x]) (ccTotal a) (totalHalstead a)
    (infoFlowSummary a) (liveTotals a) (skipped a).

(** [ccTotal += cc] *)
Definition add_cc (cc : nat) (a : Aggregate) : Aggregate :=
  mkAggregate (locArr a) (ccTotal a + cc) (totalHalstead a)
    (infoFlowSummary a) (liveTotals a) (skipped a).

(** The eight [totalHalstead.x += h.x]. *)
Definition add_halstead (h : HalsteadTally) (a : Aggregate) : Aggregate :=
  let t := totalHalstead a in
  mkAggregate (locArr a) (ccTotal a)
    {| sum_N1 := sum_N1 t + h_N1 h;
       sum_N2 := sum_N2 t + h_N2 h;
       sum_n1 := sum_n1 t + h_n1 h;
       sum_n2 := sum_n2 t + h_n2 h;
       sum_volume := (sum_volume t + volume h)%R;
       sum_effort := (sum_effort t + effort h)%R;
       sum_time := (sum_time t + time h)%R;
       sum_bugs := (sum_bugs t + bugs h)%R |}
    (infoFlowSummary a) (liveTotals a) (skipped a).

(** The five [infoFlowSummary.x += ifm.x]. *)
Definition add_infoFlow (ifm : InfoFlow) (a : Aggregate) : Aggregate :=
  let t := infoFlowSummary a in
  mkAggregate (locArr a) (ccTotal a) (totalHalstead a)
    {| sum_functionCount := sum_functionCount t + functionCount ifm;
       sum_totalFanIn := sum_totalFanIn t + totalFanIn ifm;
       sum_totalFanOut := sum_totalFanOut t + totalFanOut ifm;
       sum_totalInfoFlow := sum_totalInfoFlow t + totalInfoFlow ifm;
       sum_grandTotal := sum_grandTotal t + grandTotal ifm |}
    (liveTotals a) (skipped a).

(** The five updates of the live-variable totals. *)
Definition add_live (lv : VariableUsage) (a : Aggregate) : Aggregate :=
  let t := liveTotals a in
  mkAggregate (locArr a) (ccTotal a) (totalHalstead a) (infoFlowSummary a)
    {| totalVarsDeclared := totalVarsDeclared t + declared lv;
       totalLiveVars := totalLiveVars t + live lv;
       maxLiveVars := Nat.max (maxLiveVars t) (live lv);
       totalLOCForLive := (totalLOCForLive t + loc lv)%Z;
       liveFileCount := S (liveFileCount t) |}
    (skipped a).

(** [console.log("Skipping unparsable JS file:", file)] *)
Definition log_skip (file : string) (a : Aggregate) : Aggregate :=
  mkAggregate (locArr a) (ccTotal a) (totalHalstead a) (infoFlowSummary a)
    (liveTotals a) (skipped a ++ [file]).

(** What the callback has computed when it starts printing. *)
Record Report : Type := mkReport {
  filesAnalyzed : nat;
  totalLOC : Z;
  disp : Dispersion;
  MI : R;
  interoperabilityScore : R;
  totals : Aggregate
}.

(** ** The metric functions of [src/tool.js] *)

Module Tool.

(** [locMetrics(code)] *)
Definition locMetrics (code : text) : LineCounts :=
  let lines := split_newline code in
  let '(blank, comment) :=
    fold_left (λ '(blank, comment) l,
      let t := trim l in
      if bool_decide (t = []) then (blank + 1, comment)%Z
      else if startsWith t (units "//") || startsWith t (units "/*")
              || startsWith t (units "*")
           then (blank, comment + 1)%Z
           else (blank, comment)) lines (0, 0)%Z in
  {| total := Z.of_nat (length lines);
     blank := blank;
     comment := comment;
     code := Z.of_nat (length lines) - blank - comment |}.

Definition halstead_operator (n : node) (st : halstead_state) : halstead_state :=
  {| operators := {[ node_operator n ]} ∪ operators st;
     operands := operands st;
     N1 := S (N1 st);
     N2 := N2 st |}.

Definition halstead_visitors : Walk.visitors (node → halstead_state → halstead_state) :=
  [ ("BinaryExpression", halstead_operator);
    ("LogicalExpression", halstead_operator);
    ("UnaryExpression", halstead_operator);
    ("AssignmentExpression", halstead_operator);
    ("UpdateExpression", halstead_operator);
    ("Identifier", λ n st,
       {| operators := operators st;
          operands := {[ node_name n ]} ∪ operands st;
          N1 := N1 st;
          N2 := S (N2 st) |});
    ("Literal", λ n st,
       {| operators := operators st;
          operands := {[ Some (String_value n) ]} ∪ operands st;
          N1 := N1 st;
          N2 := S (N2 st) |}) ].

(** The derivations of [halstead] from the four tallies. *)
Definition halstead_derive (n1 n2 N1 N2 : nat) : HalsteadTally :=
  let n := n1 + n2 in
  let N := N1 + N2 in
  let volume := if n is 0 then 0%R else (INR N * log2 (INR n))%R in
  let difficulty :=
    if n2 is 0 then 0%R else ((INR n1 / 2) * (INR N2 / INR n2))%R in
  let effort := (volume * difficulty)%R in
  let time := (effort / 18)%R in
  let bugs := (volume / 3000)%R in
  mkHalsteadTally n1 n2 N1 N2 n N volume difficulty effort time bugs.

(** [halstead(ast)] *)
Definition halstead (ast : node) : HalsteadTally :=
  let st := Walk.simple ast halstead_visitors (mkHalsteadState ∅ ∅ 0 0) in
  halstead_derive (size (operators st)) (size (operands st)) (N1 st) (N2 st).

Definition cyclomatic_visitors : Walk.visitors (node → nat → nat) :=
  [ ("IfStatement", λ _ cc, S cc);
    ("ForStatement", λ _ cc, S cc);
    ("WhileStatement", λ _ cc, S cc);
    ("LogicalExpression", λ n cc,
       if bool_decide (node_operator n = Some "&&")
          || bool_decide (node_operator n = Some "||")
       then S cc else cc);
    ("ConditionalExpression", λ _ cc, S cc) ].

(** [cyclomatic(ast)] *)
Definition cyclomatic (ast : node) : nat :=
  Walk.simple ast cyclomatic_visitors 1.

(** [registerFunction(name)] *)
Definition registerFunction (name : option string)
    (functions : gmap (option string) FunctionNode)
    : gmap (option string) FunctionNode :=
  match functions !! name with
  | Some _ => functions
  | None => <[name := mkFunctionNode ∅ ∅]> functions
  end.

(** The body shared by the four function callbacks, once [name] is known. *)
Definition enter (name : option string) (st : infoFlow_state)
    : option infoFlow_state :=
  Some {| functions := registerFunction name (functions st);
          currentFunction := name |}.

(** The [CallExpression] callback.  [functions.get(k).fanOut] throws when
    [k] is not in the map. *)
Definition on_CallExpression (n : node) (st : infoFlow_state)
    : option infoFlow_state :=
  let calleeName := node_callee n ≫= node_name in
  if falsy calleeName then Some st
  else
    let fs := registerFunction calleeName (functions st) in
    caller ← fs !! currentFunction st;
    let fs := <[currentFunction st :=
                 mkFunctionNode (fanIn caller)
                   ({[ calleeName ]} ∪ fanOut caller)]> fs in
    callee ← fs !! calleeName;
    let fs := <[calleeName :=
                 mkFunctionNode ({[ currentFunction st ]} ∪ fanIn callee)
                   (fanOut callee)]> fs in
    Some {| functions := fs; currentFunction := currentFunction st |}.

Definition infoFlow_visitors
    : Walk.visitors (node → infoFlow_state → option infoFlow_state) :=
  [ ("FunctionDeclaration", λ n,
       enter (Some (or_else (node_id n ≫= node_name) "anonymous")));
    ("FunctionExpression", λ n,
       enter (Some (or_else (node_id n ≫= node_name) "anonymous_expr")));
    ("ArrowFunctionExpression", λ n,
       enter (Some ("arrow@" +:+ pretty (node_start n))));
    ("MethodDefinition", λ n, enter (node_key n ≫= node_name));
    ("CallExpression", on_CallExpression) ].

(** The first half of [infoFlow]: the map after the walk. *)
Definition infoFlow_graph (ast : node)
    : option (gmap (option string) FunctionNode) :=
  functions <$>
    Walk.ancestor ast infoFlow_visitors
      {| functions := registerFunction (Some "GLOBAL") ∅;
         currentFunction := Some "GLOBAL" |}.

(** The loop over [functions.entries()]. *)
Definition flow_totals_of (functions : gmap (option string) FunctionNode)
    : flow_totals :=
  map_fold (λ name data acc,
      if bool_decide (name = Some "GLOBAL") then acc
      else
        let fin := size (fanIn data) in
        let fout := size (fanOut data) in
        {| t_functionCount := S (t_functionCount acc);
           t_totalFanIn := t_totalFanIn acc + fin;
           t_totalFanOut := t_totalFanOut acc + fout;
           t_totalInfoFlow := t_totalInfoFlow acc + fin * fout |})
    (mkFlowTotals 0 0 0 0) functions.

(** The second half of [infoFlow]: the summary of the map. *)
Definition infoFlow_summary (functions : gmap (option string) FunctionNode)
    : InfoFlow :=
  let t := flow_totals_of functions in
  let functionCount := t_functionCount t in
  let totalFanIn := t_totalFanIn t in
  let totalFanOut := t_totalFanOut t in
  let totalInfoFlow := t_totalInfoFlow t in
  let avgFanIn :=
    if functionCount is 0 then 0%R
    else (INR totalFanIn / INR functionCount)%R in
  let avgFanOut :=
    if functionCount is 0 then 0%R
    else (INR totalFanOut / INR functionCount)%R in
  let grandTotal := totalFanIn + totalFanOut + totalInfoFlow in
  {| functionCount := functionCount;
     totalFanIn := totalFanIn;
     totalFanOut := totalFanOut;
     avgFanIn := avgFanIn;
     avgFanOut := avgFanOut;
     totalInfoFlow := totalInfoFlow;
     grandTotal := grandTotal |}.

(** [infoFlow(ast)]; [None] when a callback throws. *)
Definition infoFlow (ast : node) : option InfoFlow :=
  infoFlow_summary <$> infoFlow_graph ast.

Definition variable_visitors
    : Walk.visitors (node → variable_state → variable_state) :=
  [ ("VariableDeclarator", λ n st,
       {| declared_names := {[ node_id n ≫= node_name ]} ∪ declared_names st;
          used := used st |});
    ("Identifier", λ n st,
       {| declared_names := declared_names st;
          used := {[ node_name n ]} ∪ used st |}) ].

(** [liveVariableStats(ast, loc)] *)
Definition liveVariableStats (ast : node) (loc : Z) : VariableUsage :=
  let st := Walk.simple ast variable_visitors (mkVariableState ∅ ∅) in
  let liveCount :=
    length (filter (λ v, v ∈ used st) (elements (declared_names st))) in
  {| declared := size (declared_names st);
     live := liveCount;
     loc := loc |}.

(** [dispersion(arr)] *)
Definition dispersion (arr : list Z) : Dispersion :=
  let mean :=
    num_div (Fin (IZR (fold_left (λ a b, a + b)%Z arr 0%Z)))
            (Fin (INR (length arr))) in
  let variance :=
    num_div
      (fold_left (λ a b, num_add a (num_square (num_sub (Fin (IZR b)) mean)))
         arr (Fin 0%R))
      (Fin (INR (length arr))) in
  {| mean := mean; variance := variance; stdDev := num_sqrt variance |}.

Section main.
(** [acorn.parse(content, {ecmaVersion: "latest", sourceType: "module"})];
    [None] when it throws. *)
Variable parse : text → option node.

(** One iteration of [for (const file of files)].  An exception thrown
    inside [try] leaves the assignments made before it in place. *)
Definition process_file (a : Aggregate) (file : SourceFile) : Aggregate :=
  let loc := locMetrics (content file) in
  let a := push_loc (code loc) a in
  if endsWith (path file) ".js" then
    match parse (content file) with
    | None => log_skip (path file) a
    | Some ast =>
        let h := halstead ast in
        let a := add_halstead h a in
        let a := add_cc (cyclomatic ast) a in
        match infoFlow ast with
        | None => log_skip (path file) a
        | Some ifm =>
            let a := add_infoFlow ifm a in
            let lv := liveVariableStats ast (code loc) in
            add_live lv a
        end
    end
  else a.

(** The callback of [rl.question], from the list [scanFiles] returned to
    the values it prints. *)
Definition main (files : list SourceFile) : Report :=
  let a := fold_left process_file files initial in
  let totalLOC := fold_left (λ a b, a + b)%Z (locArr a) 0%Z in
  let disp := dispersion (locArr a) in
  let MI :=
    (171 - 5.2 * ln (or_one (sum_volume (totalHalstead a)))
         - 0.23 * INR (ccTotal a)
         - 16.2 * ln (or_one (IZR totalLOC)))%R in
  let interoperabilityScore := ((42 / 50) * 100)%R in
  {| filesAnalyzed := length files;
     totalLOC := totalLOC;
     disp := disp;
     MI := MI;
     interoperabilityScore := interoperabilityScore;
     totals := a |}.
End main.

End Tool.

(** ** The metric functions of [src/unnamed/part_000] *)

Module Part000.

(** [locMetrics(code)] *)
Definition locMetrics (code : text) : LineCounts :=
  let lines := split_newline code in
  let '(blank, comment) :=
    fold_left (λ '(blank, comment) l,
      let t := trim l in
      if bool_decide (t = []) then (blank + 1, comment)%Z
      else if startsWith t (units "//") || startsWith t (units "/*")
              || startsWith t (units "*")
           then (blank, comment + 1)%Z
           else (blank, comment)) lines (0, 0)%Z in
  {| total := Z.of_nat (length lines);
     blank := blank;
     comment := comment;
     code := Z.of_nat (length lines) - blank - comment |}.

Definition halstead_operator (n : node) (st : halstead_state) : halstead_state :=
  {| operators := {[ node_operator n ]} ∪ operators st;
     operands := operands st;
     N1 := S (N1 st);
     N2 := N2 st |}.

Definition halstead_visitors : Walk.visitors (node → halstead_state → halstead_state) :=
  [ ("BinaryExpression", halstead_operator);
    ("LogicalExpression", halstead_operator);
    ("UnaryExpression", halstead_operator);
    ("AssignmentExpression", halstead_operator);
    ("UpdateExpression", halstead_operator);
    ("Identifier", λ n st,
       {| operators := operators st;
          operands := {[ node_name n ]} ∪ operands st;
          N1 := N1 st;
          N2 := S (N2 st) |});
    ("Literal", λ n st,
       {| operators := operators st;
          operands := {[ Some (String_value n) ]} ∪ operands st;
          N1 := N1 st;
          N2 := S (N2 st) |}) ].

(** The derivations of [halstead] from the four tallies. *)
Definition halstead_derive (n1 n2 N1 N2 : nat) : HalsteadTally :=
  let n := n1 + n2 in
  let N := N1 + N2 in
  let volume := if n is 0 then 0%R else (INR N * log2 (INR n))%R in
  let difficulty :=
    if n2 is 0 then 0%R else ((INR n1 / 2) * (INR N2 / INR n2))%R in
  let effort := (volume * difficulty)%R in
  let time := (effort / 18)%R in
  let bugs := (volume / 3000)%R in
  mkHalsteadTally n1 n2 N1 N2 n N volume difficulty effort time bugs.

(** [halstead(ast)] *)
Definition halstead (ast : node) : HalsteadTally :=
  let st := Walk.simple ast halstead_visitors (mkHalsteadState ∅ ∅ 0 0) in
  halstead_derive (size (operators st)) (size (operands st)) (N1 st) (N2 st).

Definition cyclomatic_visitors : Walk.visitors (node → nat → nat) :=
  [ ("IfStatement", λ _ cc, S cc);
    ("ForStatement", λ _ cc, S cc);
    ("WhileStatement", λ _ cc, S cc);
    ("LogicalExpression", λ n cc,
       if bool_decide (node_operator n = Some "&&")
          || bool_decide (node_operator n = Some "||")
       then S cc else cc);
    ("ConditionalExpression", λ _ cc, S cc) ].

(** [cyclomatic(ast)] *)
Definition cyclomatic (ast : node) : nat :=
  Walk.simple ast cyclomatic_visitors 1.

(** [register(name)] *)
Definition register (name : option string)
    (functions : gmap (option string) FunctionNode)
    : gmap (option string) FunctionNode :=
  match functions !! name with
  | Some _ => functions
  | None => <[name := mkFunctionNode ∅ ∅]> functions
  end.

(** The body shared by the four function callbacks, once [name] is known. *)
Definition enter (name : option string) (st : infoFlow_state)
    : option infoFlow_state :=
  Some {| functions := register name (functions st);
          currentFunction := name |}.

(** The [CallExpression] callback.  [functions.get(k).fanOut] throws when
    [k] is not in the map. *)
Definition on_CallExpression (n : node) (st : infoFlow_state)
    : option infoFlow_state :=
  let calleeName := node_callee n ≫= node_name in
  if falsy calleeName then Some st
  else
    let fs := register calleeName (functions st) in
    caller ← fs !! currentFunction st;
    let fs := <[currentFunction st :=
                 mkFunctionNode (fanIn caller)
                   ({[ calleeName ]} ∪ fanOut caller)]> fs in
    callee ← fs !! calleeName;
    let fs := <[calleeName :=
                 mkFunctionNode ({[ currentFunction st ]} ∪ fanIn callee)
                   (fanOut callee)]> fs in
    Some {| functions := fs; currentFunction := currentFunction st |}.

Definition infoFlow_visitors
    : Walk.visitors (node → infoFlow_state → option infoFlow_state) :=
  [ ("FunctionDeclaration", λ n,
       enter (Some (or_else (node_id n ≫= node_name) "anonymous")));
    ("FunctionExpression", λ n,
       enter (Some (or_else (node_id n ≫= node_name) "anonymous_expr")));
    ("ArrowFunctionExpression", λ n,
       enter (Some ("arrow@" +:+ pretty (node_start n))));
    ("MethodDefinition", λ n, enter (node_key n ≫= node_name));
    ("CallExpression", on_CallExpression) ].

(** The first half of [infoFlow]: the map after the walk. *)
Definition infoFlow_graph (ast : node)
    : option (gmap (option string) FunctionNode) :=
  functions <$>
    Walk.ancestor ast infoFlow_visitors
      {| functions := register (Some "GLOBAL") ∅;
         currentFunction := Some "GLOBAL" |}.

(** The loop over [functions.entries()]. *)
Definition flow_totals_of (functions : gmap (option string) FunctionNode)
    : flow_totals :=
  map_fold (λ name data acc,
      if bool_decide (name = Some "GLOBAL") then acc
      else
        let fin := size (fanIn data) in
        let fout := size (fanOut data) in
        {| t_functionCount := S (t_functionCount acc);
           t_totalFanIn := t_totalFanIn acc + fin;
           t_totalFanOut := t_totalFanOut acc + fout;
           t_totalInfoFlow := t_totalInfoFlow acc + fin * fout |})
    (mkFlowTotals 0 0 0 0) functions.

(** The second half of [infoFlow]: the summary of the map. *)
Definition infoFlow_summary (functions : gmap (option string) FunctionNode)
    : InfoFlow :=
  let t := flow_totals_of functions in
  let functionCount := t_functionCount t in
  let totalFanIn := t_totalFanIn t in
  let totalFanOut := t_totalFanOut t in
  let totalInfoFlow := t_totalInfoFlow t in
  let avgFanIn :=
    if functionCount is 0 then 0%R
    else (INR totalFanIn / INR functionCount)%R in
  let avgFanOut :=
    if functionCount is 0 then 0%R
    else (INR totalFanOut / INR functionCount)%R in
  let grandTotal := totalFanIn + totalFanOut + totalInfoFlow in
  {| functionCount := functionCount;
     totalFanIn := totalFanIn;
     totalFanOut := totalFanOut;
     avgFanIn := avgFanIn;
     avgFanOut := avgFanOut;
     totalInfoFlow := totalInfoFlow;
     grandTotal := grandTotal |}.

(** [infoFlow(ast)]; [None] when a callback throws. *)
Definition infoFlow (ast : node) : option InfoFlow :=
  infoFlow_summary <$> infoFlow_graph ast.

Definition variable_visitors
    : Walk.visitors (node → variable_state → variable_state) :=
  [ ("VariableDeclarator", λ n st,
       {| declared_names := {[ node_id n ≫= node_name ]} ∪ declared_names st;
          used := used st |});
    ("Identifier", λ n st,
       {| declared_names := declared_names st;
          used := {[ node_name n ]} ∪ used st |}) ].

(** [liveVariableStats(ast, loc)] *)
Definition liveVariableStats (ast : node) (loc : Z) : VariableUsage :=
  let st := Walk.simple ast variable_visitors (mkVariableState ∅ ∅) in
  let live :=
    length (filter (λ v, v ∈ used st) (elements (declared_names st))) in
  {| declared := size (declared_names st); live := live; loc := loc |}.

(** [dispersion(arr)] *)
Definition dispersion (arr : list Z) : Dispersion :=
  let mean :=
    num_div (Fin (IZR (fold_left (λ a b, a + b)%Z arr 0%Z)))
            (Fin (INR (length arr))) in
  let variance :=
    num_div
      (fold_left (λ a b, num_add a (num_square (num_sub (Fin (IZR b)) mean)))
         arr (Fin 0%R))
      (Fin (INR (length arr))) in
  {| mean := mean; variance := variance; stdDev := num_sqrt variance |}.

Section main.
(** [acorn.parse(content, {ecmaVersion: "latest", sourceType: "module"})];
    [None] when it throws. *)
Variable parse : text → option node.

(** One iteration of [for (const file of files)].  An exception thrown
    inside [try] is caught; the four metric functions run before the
    first assignment. *)
Definition process_file (a : Aggregate) (file : SourceFile) : Aggregate :=
  let loc := locMetrics (content file) in
  let a := push_loc (code loc) a in
  if endsWith (path file) ".js" then
    match parse (content file) with
    | None => log_skip (path file) a
    | Some ast =>
        let h := halstead ast in
        let cc := cyclomatic ast in
        match infoFlow ast with
        | None => log_skip (path file) a
        | Some ifm =>
            let lv := liveVariableStats ast (code loc) in
            let a := add_cc cc a in
            let a := add_halstead h a in
            let a := add_infoFlow ifm a in
            add_live lv a
        end
    end
  else a.

(** The callback of [rl.question], from the list [scanFiles] returned to
    the values it prints. *)
Definition main (files : list SourceFile) : Report :=
  let a := fold_left process_file files initial in
  let totalLOC := fold_left (λ a b, a + b)%Z (locArr a) 0%Z in
  let disp := dispersion (locArr a) in
  let MI :=
    (5.2 * ln (or_one (sum_volume (totalHalstead a)))
     + 0.23 * INR (ccTotal a)
     + 16.2 * ln (or_one (IZR totalLOC)) - 171)%R in
  let interoperabilityScore := ((42 / 50) * 100)%R in
  {| filesAnalyzed := length files;
     totalLOC := totalLOC;
     disp := disp;
     MI := MI;
     interoperabilityScore := interoperabilityScore;
     totals := a |}.
End main.

End Part000.

(** ** The file scan, the CSV writer and the printed averages *)

(** The directory tree below a folder, as [fs.readdirSync] and
    [fs.statSync(...).isDirectory()] report it: the entries of a directory
    in the order in which [readdirSync] lists them, each one a directory
    with its own entries or not.  The tree is finite; links that close a
    cycle and the exceptions of [fs] are outside the model. *)
#[warnings="-register-all"]
Inductive dirent : Type :=
  | FileEntry (name : string)
  | DirEntry (name : string) (items : list dirent).

(** The name under which [readdirSync] lists an entry. *)
Definition dirent_name (e : dirent) : string :=
  match e with
  | FileEntry name | DirEntry name _ => name
  end.

Definition SUPPORTED_FILES : list string :=
  [".js"; ".jsx"; ".ts"; ".tsx"; ".json"; ".css"; ".html"].

(** [arr.includes(s)] on strings. *)
Definition includes (arr : list string) (s : string) : bool :=
  existsb (String.eqb s) arr.

Module Files.

Section scanFiles.
(** [path.join] and [path.extname]. *)
Variable join : string → string → string.
Variable extname : string → string.

(** One iteration of the loop of [scanFiles(dir, list)], on the entry
    [item] of [dir].  The array [list] is shared with the recursive call,
    which pushes on it; a directory is scanned by running the loop over its
    own entries. *)
Fixpoint scan_item (dir : string) (item : dirent)
    (list : Datatypes.list string) : Datatypes.list string :=
  if String.eqb (dirent_name item) "node_modules" then list
  else
    let full := join dir (dirent_name item) in
    match item with
    | DirEntry _ sub => fold_left (λ list item, scan_item full item list) sub list
    | FileEntry _ =>
        if includes SUPPORTED_FILES (extname full) then list ++ [full]
        else list
    end.

(** [scanFiles(dir, list)] of [src/tool.js] and [src/unnamed/part_000];
    [items] is what [fs.readdirSync(dir)] lists. *)
Definition scanFiles (dir : string) (items : Datatypes.list dirent)
    (list : Datatypes.list string) : Datatypes.list string :=
  fold_left (λ list item, scan_item dir item list) items list.
End scanFiles.

End Files.

Module CSV.

(** [writeCSV(report, filePath)] of [src/unnamed/part_000], as the text it
    passes to [fs.writeFileSync].  [report] is [Object.entries(report)]
    with every value already converted to the string that the template
    literal makes of it. *)
Definition writeCSV (report : list (text * text)) : text :=
  fold_left (λ csv '(k, v), csv ++ (k ++ units "," ++ v ++ [10%N]))
    report (units "Metric,Value" ++ [10%N]).

End CSV.

Module Printed.

(** [x || 1] on a count. *)
Definition count_or_one (n : nat) : nat := if n is 0 then 1 else n.

(** [totalLiveVars / (liveFileCount || 1)], which both entry points print
    as the average of live variables. *)
Definition averageLiveVariables (t : LiveTotals) : R :=
  (INR (totalLiveVars t) / INR (count_or_one (liveFileCount t)))%R.

End Printed.

(** ** The vocabulary of the properties *)

(** The number of visits of a walk that satisfy [p]. *)
Definition count_visits (p : visit → bool) (ast : node) : nat :=
  length (filter (λ v, p v = true) (Walk.walk ast)).

(** A visit whose key is the node type [type]. *)
Definition has_type (type : string) (v : visit) : bool := String.eqb v.1 type.

(** A [LogicalExpression] visit whose operator is [&&] or [||]. *)
Definition is_and_or (v : visit) : bool :=
  has_type "LogicalExpression" v &&
  (bool_decide (node_operator v.2 = Some "&&")
   || bool_decide (node_operator v.2 = Some "||")).

(** The visits that [cyclomatic] counts. *)
Definition is_decision (v : visit) : bool :=
  has_type "IfStatement" v || has_type "ForStatement" v
  || has_type "WhileStatement" v || is_and_or v
  || has_type "ConditionalExpression" v.





(** The tree of the one-statement program [x;]. *)
Definition single_operand_ast : node :=
  Program [ExpressionStatement (Identifier "x")].

(** The sum of a weight over every entry of the [functions] map, the
    [GLOBAL] entry included. *)
Definition map_sum (w : FunctionNode → nat)
    (m : gmap (option string) FunctionNode) : nat :=
  map_fold (λ _ d acc, acc + w d) 0 m.

Definition sum_fanIn (m : gmap (option string) FunctionNode) : nat :=
  map_sum (λ d, size (fanIn d)) m.

Definition sum_fanOut (m : gmap (option string) FunctionNode) : nat :=
  map_sum (λ d, size (fanOut d)) m.

(** What the walk of [infoFlow] keeps true of its map: every fan-out edge
    has its fan-in edge and conversely, both ends of an edge are entries of
    the map, and the two sums agree. *)
Record graph_ok (m : gmap (option string) FunctionNode) : Prop := {
  ok_sym : ∀ f g df dg, m !! f = Some df → m !! g = Some dg →
             (g ∈ fanOut df ↔ f ∈ fanIn dg);
  ok_out : ∀ f df g, m !! f = Some df → g ∈ fanOut df → is_Some (m !! g);
  ok_in : ∀ g dg f, m !! g = Some dg → f ∈ fanIn dg → is_Some (m !! f);
  ok_sum : sum_fanOut m = sum_fanIn m
}.

(** A [CallExpression] visit whose callee has a name: [node.callee.name] is
    a non-empty string, which is the case exactly for an [Identifier]. *)
Definition is_resolvable_call (v : visit) : bool :=
  has_type "CallExpression" v && negb (falsy (node_callee v.2 ≫= node_name)).

(** The name a visit makes the current function, if it is the visit of a
    function declaration, a function expression, an arrow function or a
    method definition. *)
Definition entered (v : visit) : option (option string) :=
  if has_type "FunctionDeclaration" v then
    Some (Some (or_else (node_id v.2 ≫= node_name) "anonymous"))
  else if has_type "FunctionExpression" v then
    Some (Some (or_else (node_id v.2 ≫= node_name) "anonymous_expr"))
  else if has_type "ArrowFunctionExpression" v then
    Some (Some ("arrow@" +:+ pretty (node_start v.2)))
  else if has_type "MethodDefinition" v then
    Some (node_key v.2 ≫= node_name)
  else None.

(** The current function and the set of pairs (current function, callee)
    of the resolvable calls, along a list of visits. *)
Definition trace_step
    (t : option string * gset (option string * option string)) (v : visit)
    : option string * gset (option string * option string) :=
  (default t.1 (entered v),
   if is_resolvable_call v
   then {[ (t.1, node_callee v.2 ≫= node_name) ]} ∪ t.2
   else t.2).

Definition trace (vs : list visit)
    : option string * gset (option string * option string) :=
  fold_left trace_step vs (Some "GLOBAL", ∅).

(** The distinct pairs (current function, callee) over the resolvable calls
    of a tree. *)
Definition call_edges (ast : node) : gset (option string * option string) :=
  (trace (Walk.walk ast)).2.

(** [g] is in the fan-out set of the entry of [f]. *)
Definition has_edge (m : gmap (option string) FunctionNode)
    (f g : option string) : Prop :=
  ∃ df, m !! f = Some df ∧ g ∈ fanOut df.

(** What holds of the closure variables of [infoFlow] after the visits
    [done]. *)
Definition flow_inv (done : list visit) (st : infoFlow_state) : Prop :=
  graph_ok (functions st)
  ∧ is_Some (functions st !! currentFunction st)
  ∧ currentFunction st = (trace done).1
  ∧ (∀ f g, (f, g) ∈ (trace done).2 ↔ has_edge (functions st) f g)
  ∧ sum_fanOut (functions st) = size (trace done).2
  ∧ size (trace done).2 ≤
      length (filter (λ v, is_resolvable_call v = true) done).

(** The sizes of the two sets of the [GLOBAL] entry, which the loop over
    [functions.entries()] skips. *)
Definition global_fanIn (m : gmap (option string) FunctionNode) : nat :=
  match m !! Some "GLOBAL" with Some d => size (fanIn d) | None => 0 end.

Definition global_fanOut (m : gmap (option string) FunctionNode) : nat :=
  match m !! Some "GLOBAL" with Some d => size (fanOut d) | None => 0 end.

(** The tree of the program [b(); b();]. *)
Definition repeated_call_ast : node :=
  Program
    [ ExpressionStatement (CallExpression (Identifier "b") []);
      ExpressionStatement (CallExpression (Identifier "b") []) ].

(** What the loop keeps true of its totals: the total volume is 0 or at
    least 1, and no file has a negative number of code lines. *)
Definition totals_ok (a : Aggregate) : Prop :=
  (sum_volume (totalHalstead a) = 0 ∨ 1 <= sum_volume (totalHalstead a))%R
  ∧ Forall (λ x, 0 ≤ x)%Z (locArr a).


(** A parser that accepts the program [x;] and nothing else. *)
Definition parse_only_x (code : text) : option node :=
  if bool_decide (code = units "x;") then Some single_operand_ast else None.

(** The tree of
    [if (a && b) {} else { while (c ?? d) {} }]. *)
Definition branching_ast : node :=
  Program
    [ IfStatement
        (LogicalExpression "&&" (Identifier "a") (Identifier "b"))
        (BlockStatement [])
        (Some (BlockStatement
           [ WhileStatement
               (LogicalExpression "??" (Identifier "c") (Identifier "d"))
               (BlockStatement []) ])) ].

(** The tree of
    [switch (x) { case 1: break; default: } try { f(); } catch (e) {}]. *)
Definition switch_try_ast : node :=
  Program
    [ SwitchStatement (Identifier "x")
        [ SwitchCase (Some (Literal (LitNumber "1"))) [BreakStatement];
          SwitchCase None [] ];
      TryStatement
        (BlockStatement
           [ExpressionStatement (CallExpression (Identifier "f") [])])
        (Some (CatchClause (Some (Identifier "e")) (BlockStatement [])))
        None ].

(** The tree of [x = x + 1;]. *)
Definition increment_ast : node :=
  Program
    [ ExpressionStatement
        (AssignmentExpression "=" (Identifier "x")
           (BinaryExpression "+" (Identifier "x") (Literal (LitNumber "1")))) ].

(** The tree of [var x = 1, y; x;]. *)
Definition declarations_ast : node :=
  Program
    [ VariableDeclaration
        [ VariableDeclarator (Identifier "x") (Some (Literal (LitNumber "1")));
          VariableDeclarator (Identifier "y") None ];
      ExpressionStatement (Identifier "x") ].

(** [found join extname dir items p]: [p] is the joined path of an entry
    below [dir] that is not a directory, whose path has a supported
    extension, and that is reached without going through an entry named
    [node_modules]. *)
Inductive found (join : string → string → string) (extname : string → string)
    : string → list dirent → string → Prop :=
  | found_file dir items name :
      FileEntry name ∈ items →
      name ≠ "node_modules" →
      includes SUPPORTED_FILES (extname (join dir name)) = true →
      found join extname dir items (join dir name)
  | found_below dir items name sub p :
      DirEntry name sub ∈ items →
      name ≠ "node_modules" →
      found join extname (join dir name) sub p →
      found join extname dir items p.

(** A small tree: [src/a.js], [src/notes.txt], [node_modules/x.js] and
    [lib/node_modules/y.js], [lib/b.css]. *)
Definition sample_tree : list dirent :=
  [ DirEntry "src" [FileEntry "a.js"; FileEntry "notes.txt"];
    DirEntry "node_modules" [FileEntry "x.js"];
    DirEntry "lib" [DirEntry "node_modules" [FileEntry "y.js"];
                    FileEntry "b.css"] ].

(** [dir + "/" + item], which is what [path.join] gives for a folder name
    without a trailing separator and the name of an entry. *)
Definition slash_join (dir item : string) : string := dir +:+ "/" +:+ item.

(** The text from the last dot of a path, standing in for [path.extname]
    on paths whose last component has a dot that is not its first
    character. *)
Fixpoint last_dot_suffix (s : string) : string :=
  match s with
  | EmptyString => ""
  | String c s' =>
      let r := last_dot_suffix s' in
      if String.eqb r "" then
        if Ascii.eqb c (Ascii.ascii_of_nat 46) then s else ""
      else r
  end.

(** An entry of a report that [writeCSV] writes on a line of its own:
    neither the key nor the value holds a line feed. *)
Definition one_line (e : text * text) : Prop :=
  (10%N ∉ fst e) ∧ (10%N ∉ snd e).


(** The row [writeCSV] writes for an entry, without its line feed. *)
Definition csv_row (e : text * text) : text :=
  fst e ++ units "," ++ snd e.

Definition sample_report : list (text * text) :=
  [ (units "Files Analyzed", units "3"); (units "Halstead Volume", units "1,234.50") ].

(** The body of the loop of [locMetrics] on one line. *)
Definition line_step (counts : Z * Z) (l : text) : Z * Z :=
  let '(blank, comment) := counts in
  let t := trim l in
  if bool_decide (t = []) then (blank + 1, comment)%Z
  else if startsWith t (units "//") || startsWith t (units "/*")
          || startsWith t (units "*")
       then (blank, comment + 1)%Z
       else (blank, comment).

(** The number of line feeds of a text. *)
Definition line_feeds (s : text) : nat :=
  length (filter (λ c, c = 10%N) s).

(** The visits on which [halstead] counts an operator, and those on which
    it counts an operand. *)
Definition is_operator (v : visit) : bool :=
  has_type "BinaryExpression" v || has_type "LogicalExpression" v
  || has_type "UnaryExpression" v || has_type "AssignmentExpression" v
  || has_type "UpdateExpression" v.

Definition is_operand (v : visit) : bool :=
  has_type "Identifier" v || has_type "Literal" v.

(** The names [infoFlow] registers along a list of visits: those of the
    function visits and the callees of the resolvable calls. *)
Definition registered_names (vs : list visit) : gset (option string) :=
  list_to_set (omap entered vs)
  ∪ list_to_set (map (λ v, node_callee v.2 ≫= node_name)
                   (filter (λ v, is_resolvable_call v = true) vs)).

(** The tree of [require("fs"); function f() {} f();]. *)
Definition called_only_ast : node :=
  Program
    [ ExpressionStatement
        (CallExpression (Identifier "require") [Literal (LitString "fs")]);
      FunctionDeclaration (Some (Identifier "f")) [] (BlockStatement []);
      ExpressionStatement (CallExpression (Identifier "f") []) ].

(** The tree the loop analyses for a file: the one acorn gives for a file
    whose path ends in [.js], none for any other file and for a script that
    acorn rejects. *)
Definition script_tree (parse : text → option node) (f : SourceFile)
    : option node :=
  if endsWith (path f) ".js" then parse (content f) else None.

(** The code-line count of a file. *)
Definition code_lines (f : SourceFile) : Z :=
  code (Tool.locMetrics (content f)).

(** The analysed files of a run, in order: tree and code-line count. *)
Definition analysed (parse : text → option node) (files : list SourceFile)
    : list (node * Z) :=
  omap (λ f, (λ ast, (ast, code_lines f)) <$> script_tree parse f) files.

(** The paths of the script files that acorn rejects, in order. *)
Definition rejected (parse : text → option node) (files : list SourceFile)
    : list string :=
  omap (λ f, if endsWith (path f) ".js"
             then match parse (content f) with
                  | Some _ => None
                  | None => Some (path f)
                  end
             else None) files.

(** What [infoFlow] returns for a tree. *)
Definition flow_of (ast : node) : InfoFlow :=
  default (Tool.infoFlow_summary ∅) (Tool.infoFlow ast).

(** Sums of integers and of real numbers over a list. *)
Definition sum_Z_with {A : Type} (f : A → Z) (l : list A) : Z :=
  foldr (λ x acc, f x + acc)%Z 0%Z l.

Definition sum_R_with {A : Type} (f : A → R) (l : list A) : R :=
  foldr (λ x acc, f x + acc)%R 0%R l.

(** The totals of a run, each written as a sum or a maximum over the files
    or over the analysed files. *)
Definition totals_of (parse : text → option node) (files : list SourceFile)
    : Aggregate :=
  let A := analysed parse files in
  {| locArr := map code_lines files;
     ccTotal := sum_list_with (λ x, Tool.cyclomatic x.1) A;
     totalHalstead :=
       {| sum_N1 := sum_list_with (λ x, h_N1 (Tool.halstead x.1)) A;
          sum_N2 := sum_list_with (λ x, h_N2 (Tool.halstead x.1)) A;
          sum_n1 := sum_list_with (λ x, h_n1 (Tool.halstead x.1)) A;
          sum_n2 := sum_list_with (λ x, h_n2 (Tool.halstead x.1)) A;
          sum_volume := sum_R_with (λ x, volume (Tool.halstead x.1)) A;
          sum_effort := sum_R_with (λ x, effort (Tool.halstead x.1)) A;
          sum_time := sum_R_with (λ x, time (Tool.halstead x.1)) A;
          sum_bugs := sum_R_with (λ x, bugs (Tool.halstead x.1)) A |};
     infoFlowSummary :=
       {| sum_functionCount := sum_list_with (λ x, functionCount (flow_of x.1)) A;
          sum_totalFanIn := sum_list_with (λ x, totalFanIn (flow_of x.1)) A;
          sum_totalFanOut := sum_list_with (λ x, totalFanOut (flow_of x.1)) A;
          sum_totalInfoFlow := sum_list_with (λ x, totalInfoFlow (flow_of x.1)) A;
          sum_grandTotal := sum_list_with (λ x, grandTotal (flow_of x.1)) A |};
     liveTotals :=
       {| totalVarsDeclared :=
            sum_list_with (λ x, declared (Tool.liveVariableStats x.1 x.2)) A;
          totalLiveVars :=
            sum_list_with (λ x, live (Tool.liveVariableStats x.1 x.2)) A;
          maxLiveVars :=
            max_list_with (λ x, live (Tool.liveVariableStats x.1 x.2)) A;
          totalLOCForLive := sum_Z_with snd A;
          liveFileCount := length A |};
     skipped := rejected parse files |}.

(** A run over a script, a style sheet and a script acorn rejects. *)
Definition sample_files : list SourceFile :=
  [ mkSourceFile "a.js" (units "x;");
    mkSourceFile "b.css" (units "p { }");
    mkSourceFile "c.js" (units "x = ;") ].

(** The sum of the squared distances of the elements of a list from [m]. *)
Definition sum_squares (m : R) (arr : list Z) : R :=
  sum_R_with (λ b, (IZR b - m) * (IZR b - m))%R arr.

(** The keys under which acorn-walk looks up a visitor for a node other
    than the node's own type. *)
Definition is_override (key : string) : bool :=
  includes ["Statement"; "Expression"; "Pattern"; "VariablePattern";
            "MemberPattern"; "ForInit"; "Function"; "Class"] key.

(** A visit is typed when its key is the type of its node or one of the
    override keys. *)
Definition typed (v : visit) : Prop :=
  v.1 = node_type v.2 ∨ is_override v.1 = true.

(** The tree of [const {a, b} = o; a;]. *)
Definition destructuring_ast : node :=
  Program
    [ VariableDeclaration
        [ VariableDeclarator
            (ObjectPattern
               [ Property false (Identifier "a") (Identifier "a");
                 Property false (Identifier "b") (Identifier "b") ])
            (Some (Identifier "o")) ];
      ExpressionStatement (Identifier "a") ].

(** *** The constructs of a tree *)

(** The nodes held by an optional field. *)
Definition opt_nodes (sub : node → list node) (o : option node) : list node :=
  match o with Some n => sub n | None => [] end.

(** The nodes of a tree: the node itself and, field by field, every node
    below it.  No field of a constructor is left out, whether or not the
    walker descends into it. *)
Fixpoint subnodes (n : node) : list node :=
  n ::
  match n with
  | Identifier _ | PrivateIdentifier _ | Literal _ => []
  | EmptyStatement | BreakStatement | ContinueStatement | DebuggerStatement =>
      []
  | ThisExpression | Super | MetaProperty | TemplateElement => []
  | ImportSpecifier | ImportDefaultSpecifier | ImportNamespaceSpecifier => []
  | Program body | BlockStatement body | StaticBlock body | ClassBody body =>
      flat_map subnodes body
  | VariableDeclaration declarations => flat_map subnodes declarations
  | ObjectPattern properties | ObjectExpression properties =>
      flat_map subnodes properties
  | SequenceExpression expressions => flat_map subnodes expressions
  | ArrayPattern elements | ArrayExpression elements =>
      flat_map (opt_nodes subnodes) elements
  | ExpressionStatement e | ParenthesizedExpression e | ChainExpression e =>
      subnodes e
  | ThrowStatement argument | SpreadElement argument | RestElement argument =>
      subnodes argument
  | UnaryExpression _ argument | UpdateExpression _ argument =>
      subnodes argument
  | ImportExpression source => subnodes source
  | ExportDefaultDeclaration declaration => subnodes declaration
  | ReturnStatement argument | YieldExpression argument
  | AwaitExpression argument =>
      opt_nodes subnodes argument
  | IfStatement test consequent alternate =>
      subnodes test ++ subnodes consequent ++ opt_nodes subnodes alternate
  | LabeledStatement label body => subnodes label ++ subnodes body
  | WithStatement object body => subnodes object ++ subnodes body
  | SwitchStatement discriminant cases =>
      subnodes discriminant ++ flat_map subnodes cases
  | SwitchCase test consequent =>
      opt_nodes subnodes test ++ flat_map subnodes consequent
  | TryStatement block handler finalizer =>
      subnodes block ++ opt_nodes subnodes handler ++
      opt_nodes subnodes finalizer
  | CatchClause param body => opt_nodes subnodes param ++ subnodes body
  | WhileStatement test body => subnodes test ++ subnodes body
  | DoWhileStatement body test => subnodes body ++ subnodes test
  | ForStatement init test update body =>
      opt_nodes subnodes init ++ opt_nodes subnodes test ++
      opt_nodes subnodes update ++ subnodes body
  | ForInStatement lhs rhs body | ForOfStatement lhs rhs body =>
      subnodes lhs ++ subnodes rhs ++ subnodes body
  | FunctionDeclaration id params body | FunctionExpression id params body =>
      opt_nodes subnodes id ++ flat_map subnodes params ++ subnodes body
  | ArrowFunctionExpression _ params body _ =>
      flat_map subnodes params ++ subnodes body
  | VariableDeclarator id init => subnodes id ++ opt_nodes subnodes init
  | AssignmentPattern lhs rhs => subnodes lhs ++ subnodes rhs
  | BinaryExpression _ lhs rhs | LogicalExpression _ lhs rhs
  | AssignmentExpression _ lhs rhs =>
      subnodes lhs ++ subnodes rhs
  | ConditionalExpression test consequent alternate =>
      subnodes test ++ subnodes consequent ++ subnodes alternate
  | Property _ key value | MethodDefinition _ key value =>
      subnodes key ++ subnodes value
  | PropertyDefinition _ key value => subnodes key ++ opt_nodes subnodes value
  | TemplateLiteral quasis expressions =>
      flat_map subnodes quasis ++ flat_map subnodes expressions
  | TaggedTemplateExpression tag quasi => subnodes tag ++ subnodes quasi
  | NewExpression callee arguments | CallExpression callee arguments =>
      subnodes callee ++ flat_map subnodes arguments
  | MemberExpression _ object property => subnodes object ++ subnodes property
  | ExportNamedDeclaration declaration source =>
      opt_nodes subnodes declaration ++ opt_nodes subnodes source
  | ExportAllDeclaration exported source =>
      opt_nodes subnodes exported ++ subnodes source
  | ImportDeclaration specifiers source =>
      flat_map subnodes specifiers ++ subnodes source
  | ClassDeclaration id superClass body | ClassExpression id superClass body =>
      opt_nodes subnodes id ++ opt_nodes subnodes superClass ++ subnodes body
  end.

(** A node of type [type]. *)
Definition of_type (type : string) (n : node) : bool :=
  String.eqb (node_type n) type.

(** A logical expression whose operator is [&&] or [||]. *)
Definition is_short_circuit (n : node) : bool :=
  of_type "LogicalExpression" n &&
  (bool_decide (node_operator n = Some "&&")
   || bool_decide (node_operator n = Some "||")).

(** How many nodes of [l] satisfy [p]. *)
Definition count_in (p : node → bool) (l : list node) : nat :=
  length (filter (λ n, p n = true) l).

(** How many nodes of the tree [ast] satisfy [p]. *)
Definition count_nodes (p : node → bool) (ast : node) : nat :=
  count_in p (subnodes ast).

(** How many visits of [l] satisfy [q]. *)
Definition tally (q : visit → bool) (l : list visit) : nat :=
  length (filter (λ v, q v = true) l).

(** A visit made under the node's own type, of a node that satisfies [p]. *)
Definition own (p : node → bool) (v : visit) : bool :=
  String.eqb v.1 (node_type v.2) && p v.2.

(** A name: what the parser puts where the grammar has a label, a property
    name or a key and not an expression. *)
Definition is_name (n : node) : bool :=
  match n with
  | Identifier _ | PrivateIdentifier _ | Literal _ => true
  | _ => false
  end.

(** The members of an object pattern are properties and rest elements. *)
Definition is_pattern_member (n : node) : bool :=
  match n with
  | Property _ _ _ | RestElement _ => true
  | _ => false
  end.

(** The node has names where ESTree has names: the label of a labeled
    statement, the key of a property, method or field that is not computed,
    and the property of a member access that is not computed; and an object
    pattern holds properties and rest elements only. *)
Definition names_in_place (n : node) : bool :=
  match n with
  | LabeledStatement label _ => is_name label
  | Property computed key _ | MethodDefinition computed key _
  | PropertyDefinition computed key _ =>
      computed || is_name key
  | MemberExpression computed _ property => computed || is_name property
  | ObjectPattern properties => forallb is_pattern_member properties
  | _ => true
  end.

(** A tree as the parser builds it: every node has its names in place. *)
Definition well_formed (ast : node) : bool :=
  forallb names_in_place (subnodes ast).

(** The node types whose visit the walker can leave out: a name, and the
    members of an object pattern, whose parts are walked in place. *)
Definition uncounted (n : node) : bool := is_name n || is_pattern_member n.

(** The tree of
    [if (a && b) { o.p(); } else { for (;;) { x = c ? 1 : 2; } }
     while (d || (e ?? f)) ;
     out: switch (k) { case 1: try { } catch (e) { } }
     ({ key: 1 });]. *)
Definition decisions_ast : node :=
  Program
    [ IfStatement
        (LogicalExpression "&&" (Identifier "a") (Identifier "b"))
        (BlockStatement
           [ ExpressionStatement
               (CallExpression
                  (MemberExpression false (Identifier "o") (Identifier "p"))
                  []) ])
        (Some
           (BlockStatement
              [ ForStatement None None None
                  (BlockStatement
                     [ ExpressionStatement
                         (AssignmentExpression "=" (Identifier "x")
                            (ConditionalExpression (Identifier "c")
                               (Literal (LitNumber "1"))
                               (Literal (LitNumber "2")))) ]) ]));
      WhileStatement
        (LogicalExpression "||" (Identifier "d")
           (LogicalExpression "??" (Identifier "e") (Identifier "f")))
        EmptyStatement;
      LabeledStatement (Identifier "out")
        (SwitchStatement (Identifier "k")
           [ SwitchCase (Some (Literal (LitNumber "1")))
               [ TryStatement (BlockStatement [])
                   (Some (CatchClause (Some (Identifier "e"))
                            (BlockStatement [])))
                   None ] ]);
      ExpressionStatement
        (ObjectExpression
           [ Property false (Identifier "key") (Literal (LitNumber "1")) ]) ].

(** A tree no parser builds: a conditional expression where a labeled
    statement has its label. *)
Definition misplaced_ast : node :=
  Program
    [ LabeledStatement
        (ConditionalExpression (Identifier "a") (Identifier "b")
           (Identifier "c"))
        EmptyStatement ].

(** ** Properties *)

(** *** Folding callbacks over the visits of a walk *)

Section folds.
Context {S : Type}.

(** An invariant that relates the state to the visits made so far is
    established by showing it for no visits and across one call. *)
Lemma simple_visits_ind (vs : Walk.visitors (node → S → S))
    (I : list visit → S → Prop) (st : S) (ast : node) :
  I [] st →
  (∀ done v s, I done s → I (done ++ [v]) (Walk.call vs s v)) →
  I (Walk.walk ast) (Walk.simple ast vs st).
Proof.
  intros H0 Hstep. unfold Walk.simple.
  induction (Walk.walk ast) as [|v l IH] using rev_ind; [exact H0|].
  rewrite fold_left_app. simpl. by apply Hstep.
Qed.

Lemma ancestor_visits_ind (vs : Walk.visitors (node → S → option S))
    (I : list visit → S → Prop) (st : S) (ast : node) :
  I [] st →
  (∀ done v s, I done s →
     ∃ s', Walk.call_throwing vs (Some s) v = Some s' ∧ I (done ++ [v]) s') →
  ∃ s', Walk.ancestor ast vs st = Some s' ∧ I (Walk.walk ast) s'.
Proof.
  intros H0 Hstep. unfold Walk.ancestor.
  induction (Walk.walk ast) as [|v l IH] using rev_ind; [by exists st|].
  destruct IH as (s & Hs & HI).
  rewrite fold_left_app. simpl. rewrite Hs. by apply Hstep.
Qed.
End folds.

Lemma filter_snoc_length (p : visit → bool) (l : list visit) (v : visit) :
  length (filter (λ v, p v = true) (l ++ [v])) =
  length (filter (λ v, p v = true) l) + (if p v then 1 else 0).
Proof.
  rewrite filter_app, length_app. f_equal.
  rewrite filter_cons, filter_nil. destruct (p v); by case_decide.
Qed.

(** The callbacks of a walk run bottom-up: on the scenario the call is
    visited before the declaration that contains it. *)
Example scenario_visits :
  filter (λ k, bool_decide (k = "CallExpression")
               || bool_decide (k = "FunctionDeclaration"))
    (map fst (Walk.walk scenario_ast)) =
  ["CallExpression"; "FunctionDeclaration"; "FunctionDeclaration"].
Proof. vm_compute. reflexivity. Qed.

(** *** The size counter *)

Example locMetrics_empty :
  Tool.locMetrics [] = {| total := 1; blank := 1; comment := 0; code := 0 |}.
Proof. vm_compute. reflexivity. Qed.

Example locMetrics_sample :
  Tool.locMetrics (units "let a = 1;   // one" ++ [10%N] ++
                   units "  /* two */" ++ [10%N] ++ [9%N; 32%N] ++ [10%N] ++
                   units "* three" ++ [10%N] ++ units "a++;")
  = {| total := 5; blank := 1; comment := 2; code := 2 |}.
Proof. vm_compute. reflexivity. Qed.

Lemma locMetrics_fold_bounds (lines : list text) (b c : Z) :
  let step := λ '(blank, comment) (l : text),
    let t := trim l in
    if bool_decide (t = []) then (blank + 1, comment)%Z
    else if startsWith t (units "//") || startsWith t (units "/*")
            || startsWith t (units "*")
         then (blank, comment + 1)%Z
         else (blank, comment) in
  let r := fold_left step lines (b, c) in
  (b ≤ r.1 ∧ c ≤ r.2 ∧ r.1 + r.2 ≤ b + c + Z.of_nat (length lines))%Z.
Proof.
  simpl. revert b c. induction lines as [|l lines IH]; intros b c; simpl.
  - lia.
  - case_bool_decide.
    + specialize (IH (b + 1)%Z c). lia.
    + destruct (_ || _); [specialize (IH b (c + 1)%Z) | specialize (IH b c)]; lia.
Qed.

(** The three classes of lines never count more lines than there are. *)
Lemma locMetrics_nonneg (s : text) :
  (0 ≤ blank (Tool.locMetrics s) ∧ 0 ≤ comment (Tool.locMetrics s) ∧
   0 ≤ code (Tool.locMetrics s) ∧ 1 ≤ total (Tool.locMetrics s))%Z.
Proof.
  unfold Tool.locMetrics.
  pose proof (locMetrics_fold_bounds (split_newline s) 0 0) as H. simpl in H.
  destruct (fold_left _ _ _) as [b c]. simpl in *.
  assert (1 ≤ length (split_newline s)).
  { destruct s as [|ch s]; simpl; [lia|].
    destruct (_ =? _)%N; simpl; [lia|]. destruct (split_newline s); simpl; lia. }
  lia.
Qed.

(** C8: for every input text, the empty text included, the counts that
    [locMetrics] returns satisfy total = blank + comment + code. *)
Theorem locMetrics_total (s : text) :
  total (Tool.locMetrics s) =
  (blank (Tool.locMetrics s) + comment (Tool.locMetrics s)
   + code (Tool.locMetrics s))%Z.
Proof.
  unfold Tool.locMetrics. destruct (fold_left _ _ _) as [b c]. simpl. lia.
Qed.

(** *** The decision-point counter *)

Local Arguments String.eqb : simpl never.

(** Case analysis on every comparison of type names in the goal. *)
Ltac case_eqb :=
  repeat match goal with
  | |- context [String.eqb ?a ?b] =>
      destruct (String.eqb_spec a b); try congruence; subst; simpl
  end.

Example cyclomatic_branching : Tool.cyclomatic branching_ast = 4.
Proof. vm_compute. reflexivity. Qed.

Example cyclomatic_switch_try : Tool.cyclomatic switch_try_ast = 1.
Proof. vm_compute. reflexivity. Qed.

(** One callback of [cyclomatic] adds one exactly on a counted visit. *)
Lemma cyclomatic_call (cc : nat) (v : visit) :
  Walk.call Tool.cyclomatic_visitors cc v = cc + (if is_decision v then 1 else 0).
Proof.
  destruct v as [ty n]. unfold Walk.call, is_decision, is_and_or, has_type.
  simpl. case_eqb; try lia; destruct (_ || _); simpl; lia.
Qed.

(** A visit of any other kind leaves the counter as it is: a [switch] case,
    a [catch] clause, a [do]-[while], [for]-[in] or [for]-[of] loop, a [??]. *)
Lemma cyclomatic_ignores (cc : nat) (v : visit) :
  is_decision v = false → Walk.call Tool.cyclomatic_visitors cc v = cc.
Proof. intros H. rewrite cyclomatic_call, H. lia. Qed.

Lemma cyclomatic_decisions (ast : node) :
  Tool.cyclomatic ast = 1 + count_visits is_decision ast.
Proof.
  unfold Tool.cyclomatic, count_visits.
  apply (simple_visits_ind Tool.cyclomatic_visitors
           (λ done cc, cc = 1 + length (filter (λ v, is_decision v = true) done))).
  - reflexivity.
  - intros done v cc ->. rewrite cyclomatic_call, filter_snoc_length. lia.
Qed.

(** The five kinds of counted visits exclude one another. *)
Lemma count_decisions_split (ast : node) :
  count_visits is_decision ast =
  count_visits (has_type "IfStatement") ast
  + count_visits (has_type "ForStatement") ast
  + count_visits (has_type "WhileStatement") ast
  + count_visits is_and_or ast
  + count_visits (has_type "ConditionalExpression") ast.
Proof.
  unfold count_visits. induction (Walk.walk ast) as [|v l IH] using rev_ind.
  - reflexivity.
  - rewrite !filter_snoc_length, IH.
    assert ((if is_decision v then 1 else 0) =
            (if has_type "IfStatement" v then 1 else 0)
            + (if has_type "ForStatement" v then 1 else 0)
            + (if has_type "WhileStatement" v then 1 else 0)
            + (if is_and_or v then 1 else 0)
            + (if has_type "ConditionalExpression" v then 1 else 0)) as ->; [|lia].
    destruct v as [ty n]. unfold is_decision, is_and_or, has_type. simpl.
    case_eqb; try reflexivity. repeat (case_bool_decide; simpl); lia.
Qed.


(** *** The declared/used variable analyzer *)

(** The declarator visits the name it binds as a pattern, not as an
    [Identifier]: [y] is declared and never used. *)
Example liveVariableStats_declarations :
  Tool.liveVariableStats declarations_ast 2 =
  {| declared := 2; live := 1; loc := 2 |}.
Proof. vm_compute. reflexivity. Qed.


(** Filtering the elements of a set by membership in another counts their
    intersection. *)
Lemma length_filter_elements (D U : gset (option string)) :
  length (filter (λ v, v ∈ U) (elements D)) = size (D ∩ U).
Proof.
  unfold size, set_size. simpl. apply Permutation_length, NoDup_Permutation.
  - apply NoDup_filter, NoDup_elements.
  - apply NoDup_elements.
  - intros x. rewrite list_elem_of_filter, !elem_of_elements. set_solver.
Qed.


(** *** The Halstead calculator *)

Lemma ln_2_pos : (0 < ln 2)%R.
Proof. pose proof ln_lt_2. lra. Qed.

Lemma log2_1 : log2 1 = 0%R.
Proof. unfold log2. rewrite ln_1. lra. Qed.

Lemma log2_pos (x : R) : (1 < x)%R → (0 < log2 x)%R.
Proof.
  intros Hx. unfold log2. apply Rdiv_pos_pos; [|apply ln_2_pos].
  rewrite <- ln_1. apply ln_increasing; lra.
Qed.

Lemma log2_INR_nonneg (n : nat) : 1 ≤ n → (0 <= log2 (INR n))%R.
Proof.
  intros Hn. destruct (decide (n = 1)) as [->|Hne].
  - simpl. rewrite log2_1. lra.
  - left. apply log2_pos. change 1%R with (INR 1). apply lt_INR. lia.
Qed.

(** The target of an assignment is walked as a pattern: of the two [x] only
    the one on the right is an operand. *)
Example halstead_increment :
  let h := Tool.halstead increment_ast in
  (h_n1 h, h_n2 h, h_N1 h, h_N2 h) = (2, 2, 2, 2).
Proof. cbn. vm_compute. reflexivity. Qed.

(** Adding one element makes a set at most one larger. *)
Lemma size_add_le (x : option string) (X : gset (option string)) :
  size ({[ x ]} ∪ X) ≤ S (size X).
Proof.
  rewrite size_union_alt, size_singleton.
  pose proof (subseteq_size (X ∖ {[ x ]}) X). set_solver by lia.
Qed.

(** Every distinct operator and operand has been counted at least once. *)
Lemma halstead_walk_bounds (ast : node) :
  let st := Walk.simple ast Tool.halstead_visitors (mkHalsteadState ∅ ∅ 0 0) in
  size (operators st) ≤ N1 st ∧ size (operands st) ≤ N2 st.
Proof.
  apply (simple_visits_ind Tool.halstead_visitors
    (λ _ st, size (operators st) ≤ N1 st ∧ size (operands st) ≤ N2 st)).
  - split; cbn [operators operands N1 N2]; by rewrite size_empty.
  - intros _ [ty n] st [H1 H2]. unfold Walk.call. simpl.
    case_eqb; (split; [try done | try done]);
      (etrans; [apply size_add_le|lia]).
Qed.

(** The volume and the effort as functions of the four tallies. *)
Lemma halstead_derive_volume (n1 n2 N1 N2 : nat) :
  n1 ≤ N1 → n2 ≤ N2 →
  (volume (Tool.halstead_derive n1 n2 N1 N2) = 0%R ↔ n1 + n2 ≤ 1)
  ∧ (0 <= volume (Tool.halstead_derive n1 n2 N1 N2))%R
  ∧ (0 <= effort (Tool.halstead_derive n1 n2 N1 N2))%R.
Proof.
  intros H1 H2. unfold Tool.halstead_derive. simpl.
  assert (Hd : (0 <= (if n2 is 0 then 0 else INR n1 / 2 * (INR N2 / INR n2)))%R).
  { destruct n2 as [|n2]; [lra|].
    apply Rmult_le_pos.
    - pose proof (pos_INR n1). lra.
    - apply Rle_mult_inv_pos; [apply pos_INR|apply lt_0_INR; lia]. }
  destruct (n1 + n2) as [|[|n]] eqn:Hn.
  - split; [split; [lia|reflexivity]|]. split; [lra|]. rewrite Rmult_0_l. lra.
  - assert (Hv : (INR (N1 + N2) * log2 (INR 1) = 0)%R).
    { simpl. rewrite log2_1. lra. }
    rewrite Hv. split; [split; [lia|reflexivity]|]. split; [lra|].
    rewrite Rmult_0_l. lra.
  - assert (Hv : (0 < INR (N1 + N2) * log2 (INR (S (S n))))%R).
    { apply Rmult_lt_0_compat.
      - apply lt_0_INR. lia.
      - apply log2_pos. change 1%R with (INR 1). apply lt_INR. lia. }
    split; [split; [lra|lia]|]. split; [lra|].
    apply Rmult_le_pos; [lra|exact Hd].
Qed.

Lemma halstead_single_operand :
  Tool.halstead single_operand_ast = Tool.halstead_derive 0 1 0 1.
Proof.
  unfold Tool.halstead.
  set (st := Walk.simple _ _ _).
  assert (size (operators st) = 0) as -> by (vm_compute; reflexivity).
  assert (size (operands st) = 1) as -> by (vm_compute; reflexivity).
  assert (N1 st = 0) as -> by (vm_compute; reflexivity).
  assert (N2 st = 1) as -> by (vm_compute; reflexivity).
  reflexivity.
Qed.

(** C5, as stated, fails: the program [x;] has a vocabulary of one operand
    and volume 1 * log2(1) = 0. *)
Lemma halstead_volume_zero_nonempty :
  ¬ (volume (Tool.halstead single_operand_ast) = 0%R ↔
     h_n1 (Tool.halstead single_operand_ast)
     + h_n2 (Tool.halstead single_operand_ast) = 0).
Proof.
  rewrite halstead_single_operand. intros [H _].
  assert (0 + 1 = 0); [|lia]. apply H.
  unfold Tool.halstead_derive. simpl. rewrite log2_1. lra.
Qed.

(** C5, amended: the volume is 0 exactly when the combined vocabulary has at
    most one element, and the effort is never negative. *)
Theorem halstead_volume_effort (ast : node) :
  (volume (Tool.halstead ast) = 0%R ↔
     h_n1 (Tool.halstead ast) + h_n2 (Tool.halstead ast) ≤ 1)
  ∧ (0 <= effort (Tool.halstead ast))%R.
Proof.
  destruct (halstead_walk_bounds ast) as [H1 H2]. unfold Tool.halstead.
  set (st := Walk.simple _ _ _) in *.
  destruct (halstead_derive_volume _ _ _ _ H1 H2) as (Hv & _ & He).
  split; [exact Hv|exact He].
Qed.

(** *** The information-flow analyzer *)

Section map_sum.
Variable w : FunctionNode → nat.
Implicit Types m : gmap (option string) FunctionNode.

Lemma map_sum_empty : map_sum w ∅ = 0.
Proof. apply map_fold_empty. Qed.

Lemma map_sum_insert_fresh m k d :
  m !! k = None → map_sum w (<[k := d]> m) = map_sum w m + w d.
Proof.
  intros Hk. unfold map_sum. rewrite map_fold_insert_L; [done| |done].
  intros. lia.
Qed.

(** Replacing the value of a key exchanges its weight. *)
Lemma map_sum_insert m k d d' :
  m !! k = Some d →
  map_sum w (<[k := d']> m) + w d = map_sum w m + w d'.
Proof.
  intros Hk. rewrite <- (insert_delete_id m k d) at 2 by done.
  rewrite <- (insert_delete_eq m k d').
  rewrite !map_sum_insert_fresh by apply lookup_delete_eq. lia.
Qed.
End map_sum.

Lemma size_add (x : option string) (X : gset (option string)) :
  size ({[ x ]} ∪ X) = if decide (x ∈ X) then size X else S (size X).
Proof.
  case_decide.
  - f_equal. set_solver.
  - rewrite size_union, size_singleton by set_solver. lia.
Qed.

Lemma graph_ok_empty : graph_ok ∅.
Proof. split; try (intros; simplify_map_eq; fail). reflexivity. Qed.

Lemma registerFunction_lookup name m k :
  Tool.registerFunction name m !! k =
  match m !! k with
  | Some d => Some d
  | None => if decide (name = k) then Some (mkFunctionNode ∅ ∅) else None
  end.
Proof.
  unfold Tool.registerFunction. destruct (m !! name) eqn:Hn.
  - destruct (m !! k) eqn:Hk; [done|]. case_decide; congruence.
  - rewrite lookup_insert. case_decide; subst; [by rewrite Hn|].
    by destruct (m !! k).
Qed.

Lemma registerFunction_registered name m :
  is_Some (Tool.registerFunction name m !! name).
Proof.
  rewrite registerFunction_lookup. destruct (m !! name); [eauto|].
  case_decide; [eauto|done].
Qed.

Lemma registerFunction_keeps name m k :
  is_Some (m !! k) → is_Some (Tool.registerFunction name m !! k).
Proof. rewrite registerFunction_lookup. by intros [d ->]. Qed.

Lemma registerFunction_sums name m :
  sum_fanOut (Tool.registerFunction name m) = sum_fanOut m
  ∧ sum_fanIn (Tool.registerFunction name m) = sum_fanIn m.
Proof.
  unfold Tool.registerFunction, sum_fanOut, sum_fanIn.
  destruct (m !! name) eqn:Hn; [done|].
  rewrite !map_sum_insert_fresh by done. cbn [fanIn fanOut].
  rewrite size_empty. lia.
Qed.

Lemma registerFunction_ok name m :
  graph_ok m → graph_ok (Tool.registerFunction name m).
Proof.
  intros [Hsym Hout Hin Hsum].
  assert (Hnew : ∀ k d, Tool.registerFunction name m !! k = Some d →
            m !! k = Some d ∨ (m !! k = None ∧ fanIn d = ∅ ∧ fanOut d = ∅)).
  { intros k d. rewrite registerFunction_lookup.
    destruct (m !! k); [by left|]. case_decide; [|done].
    intros [= <-]. by right. }
  split.
  - intros f g df dg Hf Hg.
    destruct (Hnew _ _ Hf) as [Hf'|(Hf' & Hfi & Hfo)],
             (Hnew _ _ Hg) as [Hg'|(Hg' & Hgi & Hgo)].
    + by eapply Hsym.
    + rewrite Hgi. split; [|set_solver]. intros Hgf.
      destruct (Hout _ _ _ Hf' Hgf) as [? ?]. congruence.
    + rewrite Hfo. split; [set_solver|]. intros Hfg.
      destruct (Hin _ _ _ Hg' Hfg) as [? ?]. congruence.
    + rewrite Hfo, Hgi. set_solver.
  - intros f df g Hf Hg. apply registerFunction_keeps.
    destruct (Hnew _ _ Hf) as [Hf'|(_ & _ & Hfo)]; [by eapply Hout|].
    rewrite Hfo in Hg. set_solver.
  - intros g dg f Hg Hf. apply registerFunction_keeps.
    destruct (Hnew _ _ Hg) as [Hg'|(_ & Hgi & _)]; [by eapply Hin|].
    rewrite Hgi in Hf. set_solver.
  - destruct (registerFunction_sums name m) as [-> ->]. exact Hsum.
Qed.

(** The map after the two [add]s of the [CallExpression] callback, entry by
    entry: [c] joins the fan-out of [k] and [k] the fan-in of [c]; when [k]
    and [c] are the same key both [add]s reach the same entry. *)
Lemma add_edge_lookup (m : gmap (option string) FunctionNode)
    (k c : option string) (dk dc : FunctionNode) (x : option string) :
  m !! k = Some dk →
  <[k := mkFunctionNode (fanIn dk) ({[ c ]} ∪ fanOut dk)]> m !! c = Some dc →
  <[c := mkFunctionNode ({[ k ]} ∪ fanIn dc) (fanOut dc)]>
    (<[k := mkFunctionNode (fanIn dk) ({[ c ]} ∪ fanOut dk)]> m) !! x =
  (λ dx, mkFunctionNode
           ((if decide (x = c) then {[ k ]} else ∅) ∪ fanIn dx)
           ((if decide (x = k) then {[ c ]} else ∅) ∪ fanOut dx)) <$> m !! x.
Proof.
  intros Hk Hc. rewrite lookup_insert in Hc. rewrite !lookup_insert.
  repeat case_decide; simplify_eq; rewrite ?Hk, ?Hc; simpl;
    try destruct (m !! x) as [[]|]; simpl; f_equal; f_equal; set_solver.
Qed.

Lemma add_edge_ok (m : gmap (option string) FunctionNode)
    (k c : option string) (dk dc : FunctionNode) :
  graph_ok m →
  m !! k = Some dk →
  <[k := mkFunctionNode (fanIn dk) ({[ c ]} ∪ fanOut dk)]> m !! c = Some dc →
  let m' := <[c := mkFunctionNode ({[ k ]} ∪ fanIn dc) (fanOut dc)]>
              (<[k := mkFunctionNode (fanIn dk) ({[ c ]} ∪ fanOut dk)]> m) in
  graph_ok m'
  ∧ sum_fanOut m' = sum_fanOut m + (if decide (c ∈ fanOut dk) then 0 else 1)
  ∧ (∀ f g, has_edge m' f g ↔ has_edge m f g ∨ (f = k ∧ g = c)).
Proof.
  intros [Hsym Hout Hin Hsum] Hk Hc m'.
  pose proof (λ x, add_edge_lookup m k c dk dc x Hk Hc) as Hm'. fold m' in Hm'.
  assert (Hcm : ∃ dc0, m !! c = Some dc0 ∧ fanIn dc0 = fanIn dc).
  { rewrite lookup_insert in Hc. case_decide; simplify_eq; eauto. }
  destruct Hcm as (dc0 & Hc0 & Hfi).
  assert (Hsums : sum_fanOut m' + size (fanOut dk) =
                    sum_fanOut m + size ({[ c ]} ∪ fanOut dk)
                  ∧ sum_fanIn m' + size (fanIn dc) =
                    sum_fanIn m + size ({[ k ]} ∪ fanIn dc)).
  { unfold sum_fanOut, sum_fanIn, m'.
    pose proof (map_sum_insert (λ d, size (fanOut d)) _ _ _
                  (mkFunctionNode ({[ k ]} ∪ fanIn dc) (fanOut dc)) Hc) as H1.
    pose proof (map_sum_insert (λ d, size (fanIn d)) _ _ _
                  (mkFunctionNode ({[ k ]} ∪ fanIn dc) (fanOut dc)) Hc) as H2.
    pose proof (map_sum_insert (λ d, size (fanOut d)) _ _ _
                  (mkFunctionNode (fanIn dk) ({[ c ]} ∪ fanOut dk)) Hk) as H3.
    pose proof (map_sum_insert (λ d, size (fanIn d)) _ _ _
                  (mkFunctionNode (fanIn dk) ({[ c ]} ∪ fanOut dk)) Hk) as H4.
    cbn [fanIn fanOut] in *. lia. }
  pose proof (Hsym _ _ _ _ Hk Hc0) as Hedge. rewrite Hfi in Hedge.
  destruct Hsums as [Ho Hi]. rewrite !size_add in Ho, Hi.
  split; [split|split].
  - intros f g df dg. rewrite !Hm'.
    destruct (m !! f) as [df0|] eqn:Hf; [|done].
    destruct (m !! g) as [dg0|] eqn:Hg; [|done].
    intros [= <-] [= <-]. cbn [fanIn fanOut].
    pose proof (Hsym _ _ _ _ Hf Hg). repeat case_decide; set_solver.
  - intros f df g. rewrite !Hm'.
    destruct (m !! f) as [df0|] eqn:Hf; [|done]. intros [= <-]. cbn [fanOut].
    intros Hg. apply fmap_is_Some.
    apply elem_of_union in Hg as [Hg|Hg]; [|by eapply Hout].
    case_decide; [|set_solver]. apply elem_of_singleton in Hg as ->. eauto.
  - intros g dg f. rewrite !Hm'.
    destruct (m !! g) as [dg0|] eqn:Hg; [|done]. intros [= <-]. cbn [fanIn].
    intros Hf. apply fmap_is_Some.
    apply elem_of_union in Hf as [Hf|Hf]; [|by eapply Hin].
    case_decide; [|set_solver]. apply elem_of_singleton in Hf as ->. eauto.
  - repeat case_decide; try lia; tauto.
  - repeat case_decide; try lia; tauto.
  - intros f g. unfold has_edge. setoid_rewrite Hm'. split.
    + intros (df & Hf & Hg). destruct (m !! f) as [df0|] eqn:Hf0; [|done].
      injection Hf as <-. cbn [fanOut] in Hg.
      apply elem_of_union in Hg as [Hg|Hg]; [|left; eauto].
      case_decide; [|set_solver]. apply elem_of_singleton in Hg. by right.
    + intros [(df & Hf & Hg)|[-> ->]].
      * rewrite Hf. eexists. split; [done|]. cbn [fanOut]. set_solver.
      * rewrite Hk. eexists. split; [done|]. cbn [fanOut].
        rewrite decide_True by done. set_solver.
Qed.

Lemma registerFunction_edges name m f g :
  has_edge (Tool.registerFunction name m) f g ↔ has_edge m f g.
Proof.
  unfold has_edge. setoid_rewrite registerFunction_lookup. split.
  - intros (df & Hf & Hg). destruct (m !! f) as [d|]; [by simplify_eq; eauto|].
    case_decide; [|done]. simplify_eq. set_solver.
  - intros (df & -> & Hg). eauto.
Qed.

Lemma trace_snoc (done : list visit) (v : visit) :
  trace (done ++ [v]) = trace_step (trace done) v.
Proof. unfold trace. by rewrite fold_left_app. Qed.

Lemma enter_inv (name : option string) (done : list visit) (v : visit)
    (st : infoFlow_state) :
  entered v = Some name →
  is_resolvable_call v = false →
  flow_inv done st →
  ∃ st', Tool.enter name st = Some st' ∧ flow_inv (done ++ [v]) st'.
Proof.
  intros He Hv (Hok & Hcur & Htr & Hedges & Hsum & Hle).
  eexists. split; [reflexivity|].
  unfold flow_inv. cbn [functions currentFunction].
  rewrite filter_snoc_length, trace_snoc, Hv. unfold trace_step.
  rewrite He, Hv. cbn [fst snd default].
  split; [by apply registerFunction_ok|].
  split; [apply registerFunction_registered|]. split; [done|].
  split; [by intros; rewrite registerFunction_edges|].
  destruct (registerFunction_sums name (functions st)) as [-> _]. lia.
Qed.

Lemma on_CallExpression_inv (done : list visit) (n : node)
    (st : infoFlow_state) :
  flow_inv done st →
  ∃ st', Tool.on_CallExpression n st = Some st'
         ∧ flow_inv (done ++ [("CallExpression", n)]) st'.
Proof.
  intros (Hok & Hcur & Htr & Hedges & Hsum & Hle).
  unfold Tool.on_CallExpression, flow_inv.
  rewrite filter_snoc_length, trace_snoc. unfold trace_step.
  set (calleeName := node_callee n ≫= node_name).
  assert (is_resolvable_call ("CallExpression", n) = negb (falsy calleeName))
    as -> by (unfold is_resolvable_call, has_type; cbn [fst snd];
              by rewrite String.eqb_refl).
  change (entered ("CallExpression", n)) with (@None (option string)).
  cbn [fst snd default]. fold calleeName.
  destruct (falsy calleeName); cbn [negb].
  { exists st. repeat (split; [done|]). lia. }
  pose proof (registerFunction_ok calleeName _ Hok) as Hok1.
  pose proof (registerFunction_keeps calleeName _ _ Hcur) as [dk Hk].
  pose proof (registerFunction_registered calleeName (functions st)) as [d1 Hc1].
  destruct (registerFunction_sums calleeName (functions st)) as [Hs _].
  pose proof (registerFunction_edges calleeName (functions st)) as Hedges1.
  set (m1 := Tool.registerFunction calleeName (functions st)) in *.
  rewrite Hk. cbn [mbind option_bind].
  assert (Hc : is_Some (<[currentFunction st :=
                 mkFunctionNode (fanIn dk) ({[ calleeName ]} ∪ fanOut dk)]> m1
               !! calleeName)).
  { rewrite lookup_insert. case_decide; [eauto|]. rewrite Hc1. eauto. }
  destruct Hc as [dc Hc]. rewrite Hc. cbn [mbind option_bind].
  destruct (add_edge_ok m1 _ _ _ _ Hok1 Hk Hc) as (Hok' & Hsum' & Hedges').
  eexists. split; [reflexivity|]. cbn [functions currentFunction].
  rewrite <- Htr.
  assert (Hin : calleeName ∈ fanOut dk ↔
                (currentFunction st, calleeName) ∈ (trace done).2).
  { rewrite Hedges, <- Hedges1. unfold has_edge.
    split; [eauto|intros (d & Hd & ?); congruence]. }
  split; [exact Hok'|]. split; [|split; [done|split; [|split]]].
  - rewrite add_edge_lookup by done. rewrite Hk. eauto.
  - intros f g. rewrite Hedges', Hedges1, <- Hedges.
    rewrite elem_of_union, elem_of_singleton. split.
    + intros [[= -> ->]|?]; eauto.
    + intros [?|[-> ->]]; eauto.
  - rewrite Hsum', Hs, Hsum, size_union_alt, size_singleton.
    case_decide as Hd.
    + apply Hin in Hd.
      pose proof (size_union_alt
        ({[(currentFunction st, calleeName)]} : gset _) (trace done).2) as Hu.
      rewrite size_singleton in Hu.
      replace ({[(currentFunction st, calleeName)]} ∪ (trace done).2)
        with (trace done).2 in Hu by set_solver.
      lia.
    + rewrite Hin in Hd.
      replace ((trace done).2 ∖ {[(currentFunction st, calleeName)]})
        with (trace done).2 by set_solver.
      lia.
  - rewrite size_union_alt, size_singleton.
    pose proof (subseteq_size
      ((trace done).2 ∖ {[(currentFunction st, calleeName)]}) (trace done).2
      ltac:(set_solver)).
    lia.
Qed.

Lemma other_type_not_call (ty : string) (n : node) :
  ty ≠ "CallExpression" → is_resolvable_call (ty, n) = false.
Proof.
  intros Hty. unfold is_resolvable_call, has_type. cbn [fst].
  by destruct (String.eqb_spec ty "CallExpression").
Qed.

Lemma infoFlow_step (done : list visit) (v : visit) (st : infoFlow_state) :
  flow_inv done st →
  ∃ st', Walk.call_throwing Tool.infoFlow_visitors (Some st) v = Some st'
         ∧ flow_inv (done ++ [v]) st'.
Proof.
  intros Hinv. destruct v as [ty n]. unfold Walk.call_throwing.
  cbn [fst snd Tool.infoFlow_visitors Walk.visitor_for].
  case_eqb; try (by apply on_CallExpression_inv);
    try (apply enter_inv; [reflexivity|by apply other_type_not_call|done]).
  exists st. split; [done|].
  destruct Hinv as (? & ? & ? & ? & ? & ?). unfold flow_inv.
  rewrite filter_snoc_length, trace_snoc, other_type_not_call by done.
  unfold trace_step. rewrite other_type_not_call by done.
  assert (entered (ty, n) = None) as ->.
  { unfold entered, has_type. cbn [fst]. by case_eqb. }
  cbn [fst snd default]. repeat (split; [done|]). lia.
Qed.

(** The walk of [infoFlow] never throws.  It leaves a map in which every
    fan-out edge has its fan-in edge, and whose fan-out edges are the pairs
    (current function, callee) of the resolvable calls. *)
Lemma infoFlow_graph_ok (ast : node) :
  ∃ m, Tool.infoFlow_graph ast = Some m
       ∧ graph_ok m
       ∧ (∀ f g, (f, g) ∈ call_edges ast ↔ has_edge m f g)
       ∧ sum_fanOut m = size (call_edges ast)
       ∧ size (call_edges ast) ≤ count_visits is_resolvable_call ast.
Proof.
  unfold Tool.infoFlow_graph, count_visits, call_edges.
  destruct (ancestor_visits_ind Tool.infoFlow_visitors flow_inv
              {| functions := Tool.registerFunction (Some "GLOBAL") ∅;
                 currentFunction := Some "GLOBAL" |} ast)
    as (st & -> & Hok & _ & _ & Hedges & Hsum & Hle).
  - unfold flow_inv. cbn [functions currentFunction trace fold_left fst snd].
    split; [apply registerFunction_ok, graph_ok_empty|].
    split; [apply registerFunction_registered|]. split; [done|].
    split; [|split].
    + intros f g. rewrite registerFunction_edges. unfold has_edge.
      setoid_rewrite lookup_empty. set_solver.
    + destruct (registerFunction_sums (Some "GLOBAL") ∅) as [-> _].
      unfold sum_fanOut. by rewrite map_sum_empty, size_empty.
    + rewrite size_empty. simpl. lia.
  - apply infoFlow_step.
  - by exists (functions st).
Qed.

(** [infoFlow] returns on every tree. *)
Lemma infoFlow_total (ast : node) : is_Some (Tool.infoFlow ast).
Proof.
  unfold Tool.infoFlow. destruct (infoFlow_graph_ok ast) as (m & -> & _).
  by eexists.
Qed.

Lemma flow_totals_of_insert (m : gmap (option string) FunctionNode)
    (name : option string) (data : FunctionNode) :
  m !! name = None →
  Tool.flow_totals_of (<[name := data]> m) =
  let acc := Tool.flow_totals_of m in
  if bool_decide (name = Some "GLOBAL") then acc
  else {| t_functionCount := S (t_functionCount acc);
          t_totalFanIn := t_totalFanIn acc + size (fanIn data);
          t_totalFanOut := t_totalFanOut acc + size (fanOut data);
          t_totalInfoFlow :=
            t_totalInfoFlow acc + size (fanIn data) * size (fanOut data) |}.
Proof.
  intros Hname. unfold Tool.flow_totals_of.
  rewrite map_fold_insert_L; [done| |done].
  intros j1 j2 z1 z2 y _ _ _.
  repeat case_bool_decide; try done. cbn. f_equal; lia.
Qed.

(** The reported totals are the sums over the map less the [GLOBAL] entry. *)
Lemma flow_totals_of_sums (m : gmap (option string) FunctionNode) :
  t_totalFanIn (Tool.flow_totals_of m) + global_fanIn m = sum_fanIn m
  ∧ t_totalFanOut (Tool.flow_totals_of m) + global_fanOut m = sum_fanOut m.
Proof.
  unfold global_fanIn, global_fanOut, sum_fanIn, sum_fanOut.
  induction m as [|name data m Hname IH] using map_ind.
  - unfold Tool.flow_totals_of. rewrite map_fold_empty, !map_sum_empty.
    by rewrite lookup_empty.
  - rewrite flow_totals_of_insert, !map_sum_insert_fresh by done.
    rewrite lookup_insert. cbn zeta.
    case_bool_decide as Hg; case_decide; try congruence.
    + subst name. rewrite Hname in IH. lia.
    + cbn [t_totalFanIn t_totalFanOut]. lia.
Qed.

(** C1, as stated, fails on [b(); b();]: two calls with a simple callee
    leave one edge from [GLOBAL] to [b]; the sums over the whole map are 1
    and 1, and the totals [infoFlow] returns, which skip [GLOBAL], are 1 for
    fan-in and 0 for fan-out. *)
Lemma fan_sums_counterexample :
  ∃ m r, Tool.infoFlow_graph repeated_call_ast = Some m
    ∧ Tool.infoFlow repeated_call_ast = Some r
    ∧ count_visits is_resolvable_call repeated_call_ast = 2
    ∧ sum_fanIn m ≠ count_visits is_resolvable_call repeated_call_ast
    ∧ sum_fanOut m ≠ count_visits is_resolvable_call repeated_call_ast
    ∧ totalFanIn r ≠ totalFanOut r.
Proof.
  assert (Hg : Tool.infoFlow_graph repeated_call_ast =
               Some (<[Some "b" := mkFunctionNode {[ Some "GLOBAL" ]} ∅]>
                       {[ Some "GLOBAL" := mkFunctionNode ∅ {[ Some "b" ]} ]}))
    by (vm_compute; reflexivity).
  eexists _, _. split; [exact Hg|]. unfold Tool.infoFlow. rewrite Hg.
  split; [reflexivity|]. cbn [Tool.infoFlow_summary totalFanIn totalFanOut].
  split; [by vm_compute|]. by vm_compute.
Qed.

(** C1, amended: on every tree [infoFlow] returns; over all entries of its
    map, [GLOBAL] included, the fan-in sizes and the fan-out sizes have the
    same sum, which is the number of distinct pairs (current function,
    callee) among the calls with a simple callee name and so at most the
    number of those calls; the totals returned leave out the [GLOBAL]
    entry. *)
Theorem fan_sums (ast : node) :
  ∃ m r, Tool.infoFlow_graph ast = Some m
    ∧ Tool.infoFlow ast = Some r
    ∧ sum_fanIn m = sum_fanOut m
    ∧ sum_fanOut m = size (call_edges ast)
    ∧ size (call_edges ast) ≤ count_visits is_resolvable_call ast
    ∧ totalFanIn r + global_fanIn m = sum_fanIn m
    ∧ totalFanOut r + global_fanOut m = sum_fanOut m.
Proof.
  destruct (infoFlow_graph_ok ast) as (m & Hm & Hok & _ & Hsum & Hle).
  exists m, (Tool.infoFlow_summary m). unfold Tool.infoFlow. rewrite Hm.
  split; [done|]. split; [done|]. split; [symmetry; apply Hok|].
  split; [done|]. split; [done|]. apply flow_totals_of_sums.
Qed.

(** The map [infoFlow] has built for [function a(){ b(); } function b(){}]
    when its walk ends.  The call [b()] is visited before the callback of
    the declaration of [a] runs, while [currentFunction] is still
    ["GLOBAL"]. *)
Lemma scenario_graph :
  Tool.infoFlow_graph scenario_ast =
  Some (<[Some "a" := mkFunctionNode ∅ ∅]>
        (<[Some "b" := mkFunctionNode {[ Some "GLOBAL" ]} ∅]>
           {[ Some "GLOBAL" := mkFunctionNode ∅ {[ Some "b" ]} ]})).
Proof. vm_compute. reflexivity. Qed.

(** The one call of the scenario is recorded from [GLOBAL]. *)
Example scenario_call_edges :
  call_edges scenario_ast = {[ (Some "GLOBAL", Some "b") ]}.
Proof. vm_compute. reflexivity. Qed.

(** C2 fails on the code: in the map that [infoFlow] builds for the
    scenario the fan-out set of [a] is empty, not [{b}], and the fan-in set
    of [b] is [{GLOBAL}], not [{a}].  The callbacks assign [currentFunction]
    so that the calls of a body are recorded from its function, but they run
    after the body has been walked. *)
Lemma scenario_fan_sets :
  ∃ m a b, Tool.infoFlow_graph scenario_ast = Some m
    ∧ m !! Some "a" = Some a
    ∧ m !! Some "b" = Some b
    ∧ fanOut a = ∅ ∧ fanOut a ≠ {[ Some "b" ]}
    ∧ fanIn b = {[ Some "GLOBAL" ]} ∧ fanIn b ≠ {[ Some "a" ]}.
Proof.
  eexists _, (mkFunctionNode ∅ ∅), (mkFunctionNode {[ Some "GLOBAL" ]} ∅).
  split; [exact scenario_graph|].
  split; [by vm_compute|]. split; [by vm_compute|].
  cbn [fanIn fanOut]. split; [done|]. split; [|split; [done|]].
  - intros H. assert (Some "b" ∈ (∅ : gset (option string))); [|set_solver].
    rewrite H. set_solver.
  - intros H. assert (Some "a" ∈ ({[ Some "GLOBAL" ]} : gset (option string)));
      [|set_solver].
    rewrite H. set_solver.
Qed.

(** The summary returned for the scenario: 2 functions, information flow 0
    for [a] and for [b], and grand total 1, which is fan-in 1 plus fan-out 0
    plus flow 0, the fan-out of [GLOBAL] being left out of the totals. *)
Lemma scenario_summary :
  ∃ m r a b, Tool.infoFlow_graph scenario_ast = Some m
    ∧ Tool.infoFlow scenario_ast = Some r
    ∧ m !! Some "a" = Some a
    ∧ m !! Some "b" = Some b
    ∧ functionCount r = 2
    ∧ size (fanIn a) * size (fanOut a) = 0
    ∧ size (fanIn b) * size (fanOut b) = 0
    ∧ grandTotal r = 1.
Proof.
  eexists _, _, (mkFunctionNode ∅ ∅), (mkFunctionNode {[ Some "GLOBAL" ]} ∅).
  split; [exact scenario_graph|].
  unfold Tool.infoFlow. rewrite scenario_graph.
  split; [reflexivity|]. split; [by vm_compute|]. split; [by vm_compute|].
  cbn [Tool.infoFlow_summary functionCount grandTotal fanIn fanOut].
  by vm_compute.
Qed.

(** *** Dispersion *)

Lemma is_zero_0 : is_zero 0 = true.
Proof. unfold is_zero. by destruct (Req_dec_T 0 0). Qed.

Lemma is_zero_INR (n : nat) : is_zero (INR n) = bool_decide (n = 0).
Proof.
  unfold is_zero. destruct (Req_dec_T (INR n) 0) as [H|H]; case_bool_decide;
    try done; subst.
  - by apply (INR_eq n 0) in H.
  - by destruct H.
Qed.

(** C4 fails on the code: with no file processed, [locArr] is empty and
    [dispersion] divides 0 by 0 three times over; mean, variance and
    standard deviation are [NaN]. *)
Theorem dispersion_of_no_files (parse : text → option node) :
  Tool.dispersion [] = {| mean := NaN; variance := NaN; stdDev := NaN |}
  ∧ disp (Tool.main parse []) = {| mean := NaN; variance := NaN; stdDev := NaN |}
  ∧ ¬ is_finite (mean (disp (Tool.main parse [])))
  ∧ ¬ is_finite (variance (disp (Tool.main parse [])))
  ∧ ¬ is_finite (stdDev (disp (Tool.main parse []))).
Proof.
  assert (H : Tool.dispersion [] =
              {| mean := NaN; variance := NaN; stdDev := NaN |}).
  { unfold Tool.dispersion, num_div. cbn [fold_left length INR].
    change (IZR 0) with 0%R. by rewrite !is_zero_0. }
  unfold Tool.main. cbn [fold_left disp initial locArr]. rewrite H.
  cbn [mean variance stdDev is_finite]. tauto.
Qed.

(** On a list that is not empty the three values are finite, the variance
    is not negative and the standard deviation is its square root. *)
Lemma dispersion_finite (arr : list Z) :
  arr ≠ [] →
  ∃ m v : R, mean (Tool.dispersion arr) = Fin m
    ∧ variance (Tool.dispersion arr) = Fin v
    ∧ (0 <= v)%R
    ∧ stdDev (Tool.dispersion arr) = Fin (sqrt v).
Proof.
  intros Harr. unfold Tool.dispersion. cbn [mean variance stdDev].
  assert (Hlen : is_zero (INR (length arr)) = false).
  { rewrite is_zero_INR. case_bool_decide; [|done]. by destruct arr. }
  assert (Hpos : (0 < INR (length arr))%R).
  { apply lt_0_INR. destruct arr; [done|apply Nat.lt_0_succ]. }
  set (m := (IZR (fold_left (λ a b, a + b)%Z arr 0%Z) / INR (length arr))%R).
  assert (Hmean : num_div (Fin (IZR (fold_left (λ a b, a + b)%Z arr 0%Z)))
                    (Fin (INR (length arr))) = Fin m)
    by (unfold num_div; by rewrite Hlen).
  rewrite !Hmean.
  assert (Hfold : ∀ (l : list Z) (s : R), (0 <= s)%R →
            ∃ s', fold_left (λ a b, num_add a
                     (num_square (num_sub (Fin (IZR b)) (Fin m)))) l (Fin s)
                  = Fin s' ∧ (0 <= s')%R).
  { induction l as [|b l IH]; intros s Hs; [by exists s|].
    cbn [fold_left num_sub num_neg num_add num_square]. apply IH.
    pose proof (Rle_0_sqr (IZR b + - m)) as Hsq. unfold Rsqr in Hsq. lra. }
  destruct (Hfold arr 0%R ltac:(lra)) as (s & -> & Hs).
  unfold num_div. rewrite Hlen. exists m, (s / INR (length arr))%R.
  assert (Hv : (0 <= s / INR (length arr))%R).
  { apply Rle_mult_inv_pos; lra. }
  split; [done|]. split; [done|]. split; [done|].
  unfold num_sqrt, is_negative. destruct (Rlt_dec _ 0); [lra|done].
Qed.

(** The other derivations do substitute a fallback for a zero divisor: with
    an empty vocabulary every Halstead value is 0, with no function the
    averages of [infoFlow] are 0, and with no file the index is 171. *)
Lemma halstead_empty_vocabulary (N1 N2 : nat) :
  let h := Tool.halstead_derive 0 0 N1 N2 in
  volume h = 0%R ∧ difficulty h = 0%R ∧ effort h = 0%R ∧ time h = 0%R
  ∧ bugs h = 0%R.
Proof. cbn. repeat split; lra. Qed.

Lemma infoFlow_no_function (m : gmap (option string) FunctionNode) :
  functionCount (Tool.infoFlow_summary m) = 0 →
  avgFanIn (Tool.infoFlow_summary m) = 0%R
  ∧ avgFanOut (Tool.infoFlow_summary m) = 0%R.
Proof.
  unfold Tool.infoFlow_summary. cbn [functionCount avgFanIn avgFanOut].
  by intros ->.
Qed.

Lemma MI_of_no_files (parse : text → option node) :
  MI (Tool.main parse []) = 171%R.
Proof.
  unfold Tool.main. cbn. change (IZR 0) with 0%R.
  unfold or_one. rewrite is_zero_0, ln_1. lra.
Qed.

(** *** The two copies of the engine *)

(** C10: each of the six metric functions of [src/tool.js] returns, on every
    input, what the function of the same name in [src/unnamed/part_000]
    returns. *)
Theorem engines_agree :
  (∀ code, Tool.locMetrics code = Part000.locMetrics code)
  ∧ (∀ ast, Tool.halstead ast = Part000.halstead ast)
  ∧ (∀ ast, Tool.cyclomatic ast = Part000.cyclomatic ast)
  ∧ (∀ ast, Tool.infoFlow ast = Part000.infoFlow ast)
  ∧ (∀ ast loc, Tool.liveVariableStats ast loc = Part000.liveVariableStats ast loc)
  ∧ (∀ arr, Tool.dispersion arr = Part000.dispersion arr).
Proof. repeat split. Qed.

(** *** The main loop *)

(** [infoFlow] never throws, so the two loops, which differ in where they
    call it, fold a file into the totals in the same way. *)
Lemma process_file_agree (parse : text → option node) (a : Aggregate)
    (file : SourceFile) :
  Tool.process_file parse a file = Part000.process_file parse a file.
Proof.
  unfold Tool.process_file, Part000.process_file.
  change Part000.locMetrics with Tool.locMetrics.
  destruct (endsWith _ _); [|reflexivity].
  destruct (parse _) as [ast|]; [|reflexivity].
  change (Part000.infoFlow ast) with (Tool.infoFlow ast).
  destruct (infoFlow_total ast) as [ifm ->]. reflexivity.
Qed.

Lemma totals_agree (parse : text → option node) (files : list SourceFile)
    (a : Aggregate) :
  fold_left (Tool.process_file parse) files a =
  fold_left (Part000.process_file parse) files a.
Proof.
  revert a. induction files as [|file files IH]; intros a; simpl.
  - reflexivity.
  - rewrite process_file_agree. apply IH.
Qed.

Lemma log2_ge_1 (n : nat) : 2 ≤ n → (1 <= log2 (INR n))%R.
Proof.
  intros Hn. unfold log2. pose proof ln_2_pos as H2.
  assert (Hln : (ln 2 <= ln (INR n))%R).
  { destruct (decide (n = 2)) as [->|Hne].
    - replace (INR 2) with 2%R by (simpl; lra). lra.
    - left. apply ln_increasing; [lra|].
      change 2%R with (INR 2). apply lt_INR. lia. }
  apply Rmult_le_reg_r with (ln 2); [lra|].
  unfold Rdiv. rewrite Rmult_assoc, Rinv_l by lra. lra.
Qed.

(** The volume of one file is 0 or at least 2. *)
Lemma halstead_volume_range (ast : node) :
  (volume (Tool.halstead ast) = 0 ∨ 2 <= volume (Tool.halstead ast))%R.
Proof.
  destruct (halstead_walk_bounds ast) as [H1 H2]. unfold Tool.halstead.
  set (st := Walk.simple _ _ _) in *.
  unfold Tool.halstead_derive. cbn [volume].
  destruct (size (operators st) + size (operands st)) as [|[|n]] eqn:Hn.
  - by left.
  - left. simpl. rewrite log2_1. lra.
  - right. pose proof (log2_ge_1 (S (S n)) ltac:(lia)) as Hlog.
    assert (HN : (2 <= INR (N1 st + N2 st))%R).
    { change 2%R with (INR 2). apply le_INR. lia. }
    nra.
Qed.

Lemma process_file_ok (parse : text → option node) (a : Aggregate)
    (file : SourceFile) :
  totals_ok a → totals_ok (Tool.process_file parse a file).
Proof.
  intros [Hv Hl]. unfold Tool.process_file.
  assert (Hl' : Forall (λ x, 0 ≤ x)%Z
                  (locArr (push_loc (code (Tool.locMetrics (content file))) a))).
  { cbn [push_loc locArr]. apply Forall_app. split; [done|].
    apply Forall_singleton. apply locMetrics_nonneg. }
  destruct (endsWith _ _); [|by split].
  destruct (parse _) as [ast|]; [|by split].
  assert (Hv' : (sum_volume (totalHalstead a) + volume (Tool.halstead ast) = 0
                 ∨ 1 <= sum_volume (totalHalstead a) + volume (Tool.halstead ast))%R).
  { destruct (halstead_volume_range ast); lra. }
  destruct (Tool.infoFlow ast); by split.
Qed.

Lemma fold_process_file_ok (parse : text → option node)
    (files : list SourceFile) :
  totals_ok (fold_left (Tool.process_file parse) files initial).
Proof.
  assert (H0 : totals_ok initial) by (split; [by left|constructor]).
  revert H0. generalize initial. induction files as [|file files IH]; intros a Ha.
  - exact Ha.
  - simpl. by apply IH, process_file_ok.
Qed.

Lemma sum_nonneg (arr : list Z) (start : Z) :
  (0 ≤ start)%Z → Forall (λ x, 0 ≤ x)%Z arr →
  (0 ≤ fold_left (λ a b, a + b) arr start)%Z.
Proof.
  intros Hs Harr. revert start Hs. induction Harr as [|x arr Hx _ IH]; intros start Hs.
  - exact Hs.
  - simpl. apply IH. lia.
Qed.

(** [x || 1] is [max(x, 1)] on the values the totals can take. *)
Lemma or_one_max (x : R) : (x = 0 ∨ 1 <= x)%R → or_one x = Rmax x 1.
Proof.
  intros Hx. unfold or_one, is_zero.
  destruct (Req_dec_T x 0) as [->|Hne].
  - rewrite Rmax_right; lra.
  - rewrite Rmax_left; lra.
Qed.

Lemma or_one_max_IZR (z : Z) : (0 ≤ z)%Z → or_one (IZR z) = Rmax (IZR z) 1.
Proof.
  intros Hz. apply or_one_max. destruct (decide (z = 0%Z)) as [->|Hne].
  - by left.
  - right. apply (IZR_le 1). lia.
Qed.


Lemma sum_snoc (arr : list Z) (x : Z) :
  fold_left (λ a b, a + b)%Z (arr ++ [x]) 0%Z =
  (fold_left (λ a b, a + b)%Z arr 0 + x)%Z.
Proof. by rewrite fold_left_app. Qed.

(** C6: a script file that acorn rejects has its code-line count pushed on
    [locArr], which feeds the line total and the dispersion, and is counted
    among the files analyzed; the totals of every tree-derived metric stay
    as they were; the file is logged as skipped and the loop goes on with
    the files after it.  This holds of the loop of either entry point. *)
Theorem unparsable_file_skipped (parse : text → option node)
    (before after : list SourceFile) (file : SourceFile) :
  endsWith (path file) ".js" = true →
  parse (content file) = None →
  let code_lines := code (Tool.locMetrics (content file)) in
  let a := fold_left (Tool.process_file parse) before initial in
  let a' := Tool.process_file parse a file in
  a' = log_skip (path file) (push_loc code_lines a)
  ∧ locArr a' = locArr a ++ [code_lines]
  ∧ ccTotal a' = ccTotal a
  ∧ totalHalstead a' = totalHalstead a
  ∧ infoFlowSummary a' = infoFlowSummary a
  ∧ liveTotals a' = liveTotals a
  ∧ skipped a' = skipped a ++ [path file]
  ∧ Part000.process_file parse a file = a'
  ∧ totals (Tool.main parse (before ++ file :: after)) =
      fold_left (Tool.process_file parse) after a'
  ∧ totals (Part000.main parse (before ++ file :: after)) =
      fold_left (Part000.process_file parse) after a'
  ∧ filesAnalyzed (Tool.main parse (before ++ file :: after)) =
      length before + 1 + length after
  ∧ totalLOC (Tool.main parse (before ++ [file])) =
      (totalLOC (Tool.main parse before) + code_lines)%Z.
Proof.
  intros Hjs Hparse code_lines a a'.
  assert (Ha' : a' = log_skip (path file) (push_loc code_lines a)).
  { unfold a', Tool.process_file. by rewrite Hjs, Hparse. }
  split; [exact Ha'|]. rewrite Ha'. cbn [log_skip push_loc locArr ccTotal
    totalHalstead infoFlowSummary liveTotals skipped].
  repeat (split; [reflexivity|]).
  split; [by rewrite <- process_file_agree|].
  unfold Tool.main, Part000.main. cbn [totals filesAnalyzed totalLOC].
  rewrite <- !totals_agree, !fold_left_app. cbn [fold_left].
  fold a. fold a'. rewrite Ha'. cbn [log_skip push_loc locArr].
  split; [reflexivity|]. split; [reflexivity|].
  split; [rewrite length_app; simpl; lia|]. apply sum_snoc.
Qed.

(** The scenario of one valid and one unparsable script file. *)
Lemma unparsable_file_skipped_witness :
  let valid := mkSourceFile "valid.js" (units "x;") in
  let broken := mkSourceFile "broken.js" (units "x = ;") in
  endsWith (path broken) ".js" = true
  ∧ parse_only_x (content broken) = None
  ∧ Tool.process_file parse_only_x
      (fold_left (Tool.process_file parse_only_x) [valid] initial) broken =
    log_skip "broken.js"
      (push_loc (code (Tool.locMetrics (content broken)))
         (fold_left (Tool.process_file parse_only_x) [valid] initial)).
Proof.
  intros valid broken. split; [reflexivity|]. split; [reflexivity|].
  apply (unparsable_file_skipped parse_only_x [valid] [] broken); reflexivity.
Defined.

(** *** The file scan *)

Example scanFiles_sample :
  Files.scanFiles slash_join last_dot_suffix "." sample_tree [] =
  ["./src/a.js"; "./lib/b.css"].
Proof. vm_compute. reflexivity. Qed.

(** Induction on a directory tree, with the property available for every
    entry of a directory. *)
Lemma dirent_forall_ind (P : dirent → Prop) :
  (∀ name, P (FileEntry name)) →
  (∀ name items, Forall P items → P (DirEntry name items)) →
  ∀ e, P e.
Proof.
  intros Hfile Hdir. fix IH 1. intros [name|name items].
  - apply Hfile.
  - apply Hdir. induction items as [|item items IHitems].
    + constructor.
    + constructor; [apply IH|exact IHitems].
Qed.

Section scanFiles_facts.
Variable join : string → string → string.
Variable extname : string → string.

Lemma scan_loop_app (dir : string) (items : list dirent) (l : list string) :
  Forall (λ item, ∀ dir l,
            Files.scan_item join extname dir item l =
            l ++ Files.scan_item join extname dir item []) items →
  fold_left (λ l item, Files.scan_item join extname dir item l) items l =
  l ++ flat_map (λ item, Files.scan_item join extname dir item []) items.
Proof.
  intros Hitems. revert l. induction Hitems as [|item items Hitem _ IH]; intros l.
  - simpl. by rewrite app_nil_r.
  - simpl. rewrite IH, (Hitem dir l). by rewrite <- app_assoc.
Qed.

Lemma scan_item_app (item : dirent) (dir : string) (l : list string) :
  Files.scan_item join extname dir item l =
  l ++ Files.scan_item join extname dir item [].
Proof.
  revert dir l. induction item as [name|name items IH] using dirent_forall_ind;
    intros dir l; simpl.
  - repeat case_match; by rewrite ?app_nil_r.
  - case_match; [by rewrite app_nil_r|].
    rewrite !scan_loop_app by done. done.
Qed.

Lemma scanFiles_flat_map (dir : string) (items : list dirent)
    (l : list string) :
  Files.scanFiles join extname dir items l =
  l ++ flat_map (λ item, Files.scan_item join extname dir item []) items.
Proof.
  apply scan_loop_app, Forall_forall. intros item _ dir' l'.
  apply scan_item_app.
Qed.

(** What a scan appends to [list] does not depend on [list]: the scan of a
    folder is the concatenation of the scans of its entries, in the order
    of [readdirSync]. *)
Theorem scanFiles_appends (dir : string) (items : list dirent)
    (l : list string) :
  Files.scanFiles join extname dir items l =
  l ++ Files.scanFiles join extname dir items []
  ∧ Files.scanFiles join extname dir items [] =
    flat_map (λ item, Files.scan_item join extname dir item []) items.
Proof.
  split; [|apply (scanFiles_flat_map dir items [])].
  by rewrite (scanFiles_flat_map dir items l), (scanFiles_flat_map dir items []).
Qed.

Lemma found_in_entry (dir : string) (items : list dirent) (p : string) :
  found join extname dir items p ↔
  ∃ item, item ∈ items ∧ found join extname dir [item] p.
Proof.
  split.
  - intros [d its name Hin Hne Hext|d its name sub q Hin Hne Hq].
    + exists (FileEntry name). split; [done|].
      apply found_file; [set_solver|done|done].
    + exists (DirEntry name sub). split; [done|].
      eapply found_below; [|done|done]. set_solver.
  - intros (item & Hitem & Hfound).
    inversion Hfound as [d its name Hin Hne Hext|d its name sub q Hin Hne Hq];
      subst; apply list_elem_of_singleton in Hin; subst.
    + by apply found_file.
    + by eapply found_below.
Qed.

Lemma scan_item_found (item : dirent) (dir p : string) :
  p ∈ Files.scan_item join extname dir item [] ↔
  found join extname dir [item] p.
Proof.
  revert dir p. induction item as [name|name items IH] using dirent_forall_ind;
    intros dir p; cbn [Files.scan_item dirent_name].
  - destruct (String.eqb_spec name "node_modules") as [->|Hne].
    + split; [by intros ?%elem_of_nil|].
      intros H. inversion H as [? ? ? Hin ? ?|? ? ? ? ? Hin ? ?]; subst;
        apply list_elem_of_singleton in Hin; by simplify_eq.
    + destruct (includes _ _) eqn:Hext.
      * rewrite app_nil_l, list_elem_of_singleton. split.
        -- intros ->. apply found_file; [set_solver|done|done].
        -- intros H. inversion H as [? ? ? Hin ? ?|? ? ? ? ? Hin ? ?]; subst;
             apply list_elem_of_singleton in Hin; by simplify_eq.
      * split; [by intros ?%elem_of_nil|].
        intros H. inversion H as [? ? ? Hin ? Hext'|? ? ? ? ? Hin ? ?]; subst;
          apply list_elem_of_singleton in Hin; simplify_eq. congruence.
  - destruct (String.eqb_spec name "node_modules") as [->|Hne].
    + split; [by intros ?%elem_of_nil|].
      intros H. inversion H as [? ? ? Hin ? ?|? ? ? ? ? Hin ? ?]; subst;
        apply list_elem_of_singleton in Hin; by simplify_eq.
    + rewrite scan_loop_app
        by (apply Forall_forall; intros; apply scan_item_app).
      rewrite app_nil_l, list_elem_of_In, in_flat_map.
      setoid_rewrite <- list_elem_of_In. split.
      * intros (item & Hitem & Hp).
        apply (found_below join extname dir _ name items p);
          [by apply list_elem_of_singleton|done|].
        apply found_in_entry. exists item. split; [done|].
        rewrite Forall_forall in IH. by apply IH.
      * intros H. inversion H as [? ? ? Hin ? ?|? ? ? ? ? Hin ? Hq]; subst;
          apply list_elem_of_singleton in Hin; simplify_eq.
        apply found_in_entry in Hq as (item & Hitem & Hq).
        exists item. split; [done|]. rewrite Forall_forall in IH. by apply IH.
Qed.

(** The paths a scan returns are exactly the files with a supported
    extension that are reached without going through an entry named
    [node_modules], whether that entry is a directory or a file. *)
Theorem scanFiles_found (dir : string) (items : list dirent) (p : string) :
  p ∈ Files.scanFiles join extname dir items [] ↔
  found join extname dir items p.
Proof.
  rewrite (scanFiles_flat_map dir items []), app_nil_l.
  rewrite found_in_entry, list_elem_of_In, in_flat_map.
  setoid_rewrite <- list_elem_of_In.
  by setoid_rewrite scan_item_found.
Qed.
End scanFiles_facts.

(** *** The CSV writer *)

(** A code unit that differs from every unit of a text is not in it. *)
Lemma not_in_text (c : N) (t : text) :
  forallb (λ d, negb (N.eqb c d)) t = true → c ∉ t.
Proof.
  induction t as [|d t IH]; simpl; [by intros _ ?%elem_of_nil|].
  intros [Hd Ht]%andb_prop. apply not_elem_of_cons. split; [|by apply IH].
  destruct (N.eqb_spec c d); [done|done].
Qed.

Lemma split_newline_line (l rest : text) :
  10%N ∉ l → split_newline (l ++ 10%N :: rest) = l :: split_newline rest.
Proof.
  induction l as [|c l IH]; intros Hl; simpl.
  - reflexivity.
  - apply not_elem_of_cons in Hl as [Hc Hl].
    destruct (N.eqb_spec c 10); [congruence|]. by rewrite IH.
Qed.

Lemma writeCSV_rows (report : list (text * text)) :
  CSV.writeCSV report =
  units "Metric,Value" ++ 10%N :: flat_map (λ e, csv_row e ++ [10%N]) report.
Proof.
  unfold CSV.writeCSV.
  assert (H : ∀ csv, fold_left (λ csv '(k, v),
                csv ++ (k ++ units "," ++ v ++ [10%N])) report csv =
              csv ++ flat_map (λ e, csv_row e ++ [10%N]) report).
  { induction report as [|[k v] report IH]; intros csv;
      cbn [fold_left flat_map].
    - by rewrite app_nil_r.
    - rewrite IH. unfold csv_row. cbn [fst snd].
      by rewrite <- !app_assoc. }
  rewrite H. by rewrite <- app_assoc.
Qed.

Lemma one_line_row (e : text * text) : one_line e → 10%N ∉ csv_row e.
Proof.
  intros [Hk Hv]. unfold csv_row. rewrite !elem_of_app.
  intros [?|[H|?]]; [done| |done].
  vm_compute in H. apply list_elem_of_singleton in H. discriminate.
Qed.

Lemma writeCSV_split (report : list (text * text)) :
  Forall one_line report →
  split_newline (CSV.writeCSV report) =
  units "Metric,Value" :: map csv_row report ++ [[]].
Proof.
  intros Hreport. rewrite writeCSV_rows.
  rewrite split_newline_line by by apply not_in_text.
  f_equal. induction Hreport as [|e report He _ IH]; [reflexivity|].
  cbn [flat_map map]. rewrite <- !app_assoc. cbn [app].
  rewrite split_newline_line by by apply one_line_row. by rewrite IH.
Qed.

(** When no key and no value holds a line feed, the text [writeCSV] writes
    consists of the header line, one line [key,value] per entry in the order
    of the entries, and an empty last line; nothing is quoted or escaped. *)
Theorem writeCSV_lines (report : list (text * text)) :
  Forall one_line report →
  split_newline (CSV.writeCSV report) =
  units "Metric,Value" :: map csv_row report ++ [[]].
Proof. apply writeCSV_split. Qed.

Lemma sample_report_one_line : Forall one_line sample_report.
Proof.
  repeat constructor; by apply not_in_text.
Defined.

Lemma writeCSV_lines_witness :
  Forall one_line sample_report
  ∧ split_newline (CSV.writeCSV sample_report) =
    units "Metric,Value" :: map csv_row sample_report ++ [[]].
Proof.
  split; [exact sample_report_one_line|].
  apply (writeCSV_lines sample_report). exact sample_report_one_line.
Defined.

(** A comma in a value is written as it is: the row of the second sample
    entry has three fields. *)
Example writeCSV_sample_value_comma :
  split_newline (CSV.writeCSV sample_report) !! 2 =
  Some (units "Halstead Volume,1,234.50").
Proof. vm_compute. reflexivity. Qed.






(** *** More on the size counter *)

Lemma fold_left_pointwise {A B : Type} (f g : A → B → A) (l : list B) (a : A) :
  (∀ a x, f a x = g a x) → fold_left f l a = fold_left g l a.
Proof.
  intros Hfg. revert a. induction l as [|x l IH]; intros a; [done|].
  simpl. by rewrite Hfg, IH.
Qed.

Lemma locMetrics_unfold (s : text) :
  Tool.locMetrics s =
  let lines := split_newline s in
  let counts := fold_left line_step lines (0, 0)%Z in
  {| total := Z.of_nat (length lines);
     blank := counts.1;
     comment := counts.2;
     code := Z.of_nat (length lines) - counts.1 - counts.2 |}.
Proof.
  unfold Tool.locMetrics. cbn zeta.
  replace (fold_left line_step (split_newline s) (0, 0)%Z)
    with (fold_left (λ '(blank, comment) l,
            let t := trim l in
            if bool_decide (t = []) then (blank + 1, comment)%Z
            else if startsWith t (units "//") || startsWith t (units "/*")
                    || startsWith t (units "*")
                 then (blank, comment + 1)%Z
                 else (blank, comment)) (split_newline s) (0, 0)%Z).
  - by destruct (fold_left _ _ _).
  - apply fold_left_pointwise. by intros [??] ?.
Qed.

Lemma line_step_shift (lines : list text) (b c : Z) :
  fold_left line_step lines (b, c) =
  ((b + (fold_left line_step lines (0, 0)%Z).1)%Z,
   (c + (fold_left line_step lines (0, 0)%Z).2)%Z).
Proof.
  revert b c. induction lines as [|l lines IH]; intros b c.
  - simpl. f_equal; lia.
  - cbn [fold_left]. unfold line_step at 2 4 6.
    destruct (bool_decide _); [|destruct (_ || _)];
      rewrite IH; symmetry; rewrite IH; cbn [fst snd]; f_equal; lia.
Qed.

Lemma split_newline_length (s : text) :
  length (split_newline s) = S (line_feeds s).
Proof.
  unfold line_feeds. induction s as [|c s IH]; [reflexivity|].
  cbn [split_newline]. rewrite filter_cons.
  destruct (N.eqb_spec c 10) as [->|Hc].
  - rewrite decide_True by done. simpl. by rewrite IH.
  - rewrite decide_False by done.
    destruct (split_newline s) as [|l ls]; [done|]. simpl in *. done.
Qed.

Lemma split_newline_app (s1 s2 : text) :
  split_newline (s1 ++ 10%N :: s2) = split_newline s1 ++ split_newline s2.
Proof.
  induction s1 as [|c s1 IH]; [reflexivity|].
  cbn [app split_newline]. rewrite IH.
  destruct (N.eqb_spec c 10); [reflexivity|].
  assert (split_newline s1 ≠ []).
  { intros H. pose proof (split_newline_length s1) as Hl. by rewrite H in Hl. }
  by destruct (split_newline s1).
Qed.

(** The number of lines is one more than the number of line feeds, so a
    text is never counted as having no line, and no class of lines has a
    negative count. *)
Theorem locMetrics_line_count (s : text) :
  total (Tool.locMetrics s) = Z.of_nat (S (line_feeds s))
  ∧ (0 ≤ blank (Tool.locMetrics s))%Z
  ∧ (0 ≤ comment (Tool.locMetrics s))%Z
  ∧ (0 ≤ code (Tool.locMetrics s))%Z.
Proof.
  pose proof (locMetrics_nonneg s) as (Hb & Hc & Hcode & _).
  split; [|done]. unfold Tool.locMetrics.
  destruct (fold_left _ _ _). cbn [total]. by rewrite split_newline_length.
Qed.

(** Counting is additive over lines: the counts of two texts joined by a
    line feed are the sums of the counts of the two texts. *)
Theorem locMetrics_joined (s1 s2 : text) :
  let joined := Tool.locMetrics (s1 ++ 10%N :: s2) in
  let c1 := Tool.locMetrics s1 in
  let c2 := Tool.locMetrics s2 in
  total joined = (total c1 + total c2)%Z
  ∧ blank joined = (blank c1 + blank c2)%Z
  ∧ comment joined = (comment c1 + comment c2)%Z
  ∧ code joined = (code c1 + code c2)%Z.
Proof.
  cbn zeta. rewrite !locMetrics_unfold. cbn zeta.
  cbn [total blank comment code].
  rewrite split_newline_app, fold_left_app, length_app.
  destruct (fold_left line_step (split_newline s1) (0, 0)%Z) as [b1 c1] eqn:H1.
  rewrite line_step_shift. cbn [fst snd]. lia.
Qed.

(** *** More on the Halstead calculator *)

Lemma halstead_call_counts (st : halstead_state) (v : visit) :
  let st' := Walk.call Tool.halstead_visitors st v in
  N1 st' = N1 st + (if is_operator v then 1 else 0)
  ∧ N2 st' = N2 st + (if is_operand v then 1 else 0).
Proof.
  destruct v as [ty n]. unfold Walk.call, is_operator, is_operand, has_type.
  cbn [fst snd Tool.halstead_visitors Walk.visitor_for].
  case_eqb; cbn [N1 N2 Tool.halstead_operator]; lia.
Qed.

(** The two totals of [halstead] are the numbers of operator visits and of
    identifier and literal visits of the walk, and the distinct counts never
    exceed them. *)
Theorem halstead_tallies (ast : node) :
  h_N1 (Tool.halstead ast) = count_visits is_operator ast
  ∧ h_N2 (Tool.halstead ast) = count_visits is_operand ast
  ∧ h_n1 (Tool.halstead ast) ≤ h_N1 (Tool.halstead ast)
  ∧ h_n2 (Tool.halstead ast) ≤ h_N2 (Tool.halstead ast)
  ∧ h_n (Tool.halstead ast) ≤ h_N (Tool.halstead ast).
Proof.
  destruct (halstead_walk_bounds ast) as [H1 H2].
  assert (Hc : let st := Walk.simple ast Tool.halstead_visitors
                           (mkHalsteadState ∅ ∅ 0 0) in
               N1 st = count_visits is_operator ast
               ∧ N2 st = count_visits is_operand ast).
  { unfold count_visits.
    apply (simple_visits_ind Tool.halstead_visitors
      (λ done st,
         N1 st = length (filter (λ v, is_operator v = true) done)
         ∧ N2 st = length (filter (λ v, is_operand v = true) done))).
    - by split.
    - intros done v st [HN1 HN2].
      destruct (halstead_call_counts st v) as [-> ->].
      rewrite !filter_snoc_length. lia. }
  cbn zeta in *. destruct Hc as [Hc1 Hc2].
  unfold Tool.halstead, Tool.halstead_derive.
  cbn [h_n1 h_n2 h_N1 h_N2 h_n h_N]. lia.
Qed.

Lemma halstead_values_nonneg (ast : node) :
  (0 <= volume (Tool.halstead ast))%R
  ∧ (volume (Tool.halstead ast) = 0 ∨ 2 <= volume (Tool.halstead ast))%R
  ∧ (0 <= difficulty (Tool.halstead ast))%R
  ∧ (0 <= effort (Tool.halstead ast))%R
  ∧ (0 <= time (Tool.halstead ast))%R
  ∧ (0 <= bugs (Tool.halstead ast))%R.
Proof.
  pose proof (halstead_volume_range ast) as Hrange.
  destruct (halstead_walk_bounds ast) as [H1 H2]. revert Hrange.
  unfold Tool.halstead. set (st := Walk.simple _ _ _) in *.
  destruct (halstead_derive_volume _ _ _ _ H1 H2) as (_ & Hv & He).
  intros Hrange.
  assert (Hd : (0 <= difficulty (Tool.halstead_derive (size (operators st))
                       (size (operands st)) (N1 st) (N2 st)))%R).
  { unfold Tool.halstead_derive. cbn [difficulty].
    destruct (size (operands st)) as [|n2] eqn:Hn2; [lra|].
    apply Rmult_le_pos.
    - pose proof (pos_INR (size (operators st))). lra.
    - apply Rle_mult_inv_pos; [apply pos_INR|apply lt_0_INR; lia]. }
  split; [done|]. split; [done|]. split; [done|]. split; [done|].
  revert Hv He. unfold Tool.halstead_derive. cbn [volume effort time bugs].
  intros Hv He. lra.
Qed.

(** No value [halstead] derives is negative, and the volume of a tree is 0
    or at least 2. *)
Theorem halstead_ranges (ast : node) :
  (0 <= volume (Tool.halstead ast))%R
  ∧ (volume (Tool.halstead ast) = 0 ∨ 2 <= volume (Tool.halstead ast))%R
  ∧ (0 <= difficulty (Tool.halstead ast))%R
  ∧ (0 <= effort (Tool.halstead ast))%R
  ∧ (0 <= time (Tool.halstead ast))%R
  ∧ (0 <= bugs (Tool.halstead ast))%R.
Proof. apply halstead_values_nonneg. Qed.

(** *** More on the decision-point counter *)

Lemma count_program (p : visit → bool) (body : list node) :
  count_visits p (Program body) =
  length (filter (λ v, p v = true) (flat_map (Walk.c_Statement Walk.walk) body))
  + (if p ("Program", Program body) then 1 else 0).
Proof. unfold count_visits. cbn [Walk.walk]. apply filter_snoc_length. Qed.

(** Complexity adds up over the statements of a program: two programs put
    one after the other have the sum of their complexities less the one
    baseline path that is counted twice. *)
Theorem cyclomatic_concat (body1 body2 : list node) :
  Tool.cyclomatic (Program (body1 ++ body2)) + 1 =
  Tool.cyclomatic (Program body1) + Tool.cyclomatic (Program body2).
Proof.
  rewrite !cyclomatic_decisions, !count_program.
  rewrite flat_map_app, filter_app, length_app.
  assert (H : ∀ body, is_decision ("Program", Program body) = false)
    by (intros; by vm_compute).
  rewrite !H. lia.
Qed.

(** *** More on the information-flow analyzer *)

Lemma registerFunction_dom name m :
  dom (Tool.registerFunction name m) = {[ name ]} ∪ dom m.
Proof.
  unfold Tool.registerFunction. destruct (m !! name) eqn:Hn.
  - apply elem_of_dom_2 in Hn. set_solver.
  - by rewrite dom_insert_L.
Qed.

Lemma registered_names_snoc (done : list visit) (v : visit) :
  registered_names (done ++ [v]) =
  registered_names done
  ∪ (match entered v with Some name => {[ name ]} | None => ∅ end)
  ∪ (if is_resolvable_call v then {[ node_callee v.2 ≫= node_name ]} else ∅).
Proof.
  unfold registered_names.
  rewrite omap_app, filter_app, map_app, !list_to_set_app_L.
  rewrite filter_cons, filter_nil.
  assert (omap entered [v] =
          match entered v with Some name => [name] | None => [] end) as ->
    by (cbn; by destruct (entered v)).
  destruct (entered v); destruct (is_resolvable_call v); case_decide;
    try done; simpl; set_solver.
Qed.

Lemma call_dom (done : list visit) (v : visit) (st st' : infoFlow_state) :
  Walk.call_throwing Tool.infoFlow_visitors (Some st) v = Some st' →
  dom (functions st) = {[ Some "GLOBAL" ]} ∪ registered_names done →
  dom (functions st') = {[ Some "GLOBAL" ]} ∪ registered_names (done ++ [v]).
Proof.
  rewrite registered_names_snoc. destruct v as [ty n].
  unfold Walk.call_throwing.
  cbn [fst snd Tool.infoFlow_visitors Walk.visitor_for].
  assert (Hcall : ty ≠ "CallExpression" → is_resolvable_call (ty, n) = false)
    by apply other_type_not_call.
  unfold entered, has_type. cbn [fst snd].
  case_eqb; try (rewrite Hcall by done);
    try (intros [= <-] Hdom; cbn [functions];
         rewrite ?registerFunction_dom, Hdom; set_solver).
  (* the call *)
  unfold Tool.on_CallExpression, is_resolvable_call, has_type.
  cbn [fst snd]. rewrite String.eqb_refl. cbn [andb].
  set (calleeName := node_callee n ≫= node_name).
  destruct (falsy calleeName); cbn [negb].
  { intros [= <-] Hdom. rewrite Hdom. set_solver. }
  destruct (Tool.registerFunction calleeName (functions st)
            !! currentFunction st) as [dk|] eqn:Hk; [|done].
  cbn [mbind option_bind].
  destruct (_ !! calleeName) as [dc|] eqn:Hc; [|done].
  cbn [mbind option_bind]. intros [= <-] Hdom. cbn [functions].
  rewrite !dom_insert_L, registerFunction_dom, Hdom.
  apply elem_of_dom_2 in Hk. rewrite registerFunction_dom, Hdom in Hk.
  set_solver.
Qed.

Lemma infoFlow_graph_dom (ast : node) :
  ∃ m, Tool.infoFlow_graph ast = Some m
       ∧ dom m = {[ Some "GLOBAL" ]} ∪ registered_names (Walk.walk ast).
Proof.
  unfold Tool.infoFlow_graph.
  destruct (ancestor_visits_ind Tool.infoFlow_visitors
              (λ done st, flow_inv done st
                 ∧ dom (functions st) =
                   {[ Some "GLOBAL" ]} ∪ registered_names done)
              {| functions := Tool.registerFunction (Some "GLOBAL") ∅;
                 currentFunction := Some "GLOBAL" |} ast)
    as (st & -> & _ & Hdom).
  - split.
    + unfold flow_inv. cbn [functions currentFunction trace fold_left fst snd].
      split; [apply registerFunction_ok, graph_ok_empty|].
      split; [apply registerFunction_registered|]. split; [done|].
      split; [|split].
      * intros f g. rewrite registerFunction_edges. unfold has_edge.
        setoid_rewrite lookup_empty. set_solver.
      * destruct (registerFunction_sums (Some "GLOBAL") ∅) as [-> _].
        unfold sum_fanOut. by rewrite map_sum_empty, size_empty.
      * rewrite size_empty. simpl. lia.
    + cbn [functions]. rewrite registerFunction_dom, dom_empty_L.
      unfold registered_names. cbn. set_solver.
  - intros done v st [Hinv Hdom].
    destruct (infoFlow_step done v st Hinv) as (st' & Hst' & Hinv').
    exists st'. split; [done|]. split; [done|]. by eapply call_dom.
  - by exists (functions st).
Qed.

(** [infoFlow] never throws: the entries that the [CallExpression] callback
    reads with [functions.get] are always there.  In the map it builds, [g]
    is in the fan-out set of [f] exactly when [f] is in the fan-in set of
    [g], every name in a fan set is a key of the map, and [GLOBAL] is a
    key. *)
Theorem infoFlow_graph_symmetric (ast : node) :
  ∃ m r, Tool.infoFlow_graph ast = Some m
    ∧ Tool.infoFlow ast = Some r
    ∧ is_Some (m !! Some "GLOBAL")
    ∧ (∀ f g df dg, m !! f = Some df → m !! g = Some dg →
         (g ∈ fanOut df ↔ f ∈ fanIn dg))
    ∧ (∀ f df g, m !! f = Some df → g ∈ fanOut df → is_Some (m !! g))
    ∧ (∀ g dg f, m !! g = Some dg → f ∈ fanIn dg → is_Some (m !! f)).
Proof.
  destruct (infoFlow_graph_ok ast) as (m & Hm & [Hsym Hout Hin _] & _).
  destruct (infoFlow_graph_dom ast) as (m' & Hm' & Hdom).
  rewrite Hm in Hm'. injection Hm' as <-.
  exists m, (Tool.infoFlow_summary m). unfold Tool.infoFlow. rewrite Hm.
  split; [done|]. split; [done|]. split; [|done].
  apply elem_of_dom. rewrite Hdom. set_solver.
Qed.

(** The fan-out edges of the map are the pairs (current function, callee)
    of the calls with a simple callee name, where the current function is
    the name set by the last function, arrow function or method visit that
    came before the call in the order of the walk, and [GLOBAL] when there
    is none.  As a node is visited after its children, the calls in the
    body of a function are not recorded from that function. *)
Theorem infoFlow_attribution (ast : node) (f g : option string) :
  ∃ m, Tool.infoFlow_graph ast = Some m
    ∧ ((f, g) ∈ call_edges ast ↔ ∃ df, m !! f = Some df ∧ g ∈ fanOut df)
    ∧ ((f, g) ∈ call_edges ast ↔ ∃ dg, m !! g = Some dg ∧ f ∈ fanIn dg).
Proof.
  destruct (infoFlow_graph_ok ast) as (m & Hm & [Hsym Hout Hin _] & Hedges & _).
  exists m. split; [done|]. split; [apply Hedges|].
  rewrite Hedges. unfold has_edge. split.
  - intros (df & Hf & Hg). destruct (Hout _ _ _ Hf Hg) as [dg Hdg].
    exists dg. split; [done|]. by eapply Hsym.
  - intros (dg & Hg & Hf). destruct (Hin _ _ _ Hg Hf) as [df Hdf].
    exists df. split; [done|]. by eapply Hsym.
Qed.

Lemma flow_totals_of_count (m : gmap (option string) FunctionNode) :
  t_functionCount (Tool.flow_totals_of m) = size (dom m ∖ {[ Some "GLOBAL" ]}).
Proof.
  induction m as [|name data m Hname IH] using map_ind.
  - unfold Tool.flow_totals_of. rewrite map_fold_empty, dom_empty_L.
    replace (∅ ∖ {[Some "GLOBAL"]} : gset (option string)) with
      (∅ : gset (option string)) by set_solver.
    by rewrite size_empty.
  - rewrite flow_totals_of_insert by done. cbn zeta.
    rewrite dom_insert_L. apply not_elem_of_dom in Hname.
    case_bool_decide as Hg.
    + subst name. rewrite IH. f_equal. set_solver.
    + cbn [t_functionCount]. rewrite IH.
      replace (({[name]} ∪ dom m) ∖ {[Some "GLOBAL"]})
        with ({[name]} ∪ (dom m ∖ {[Some "GLOBAL"]}) : gset (option string))
        by set_solver.
      rewrite size_add, decide_False by set_solver. lia.
Qed.

(** The function count is the number of distinct names, other than
    [GLOBAL], among the names of the function, arrow function and method
    visits and the callees of the calls with a simple name: a name that is
    only ever called counts as a function, and two functions with one name
    count once. *)
Theorem infoFlow_function_count (ast : node) :
  ∃ r, Tool.infoFlow ast = Some r
    ∧ functionCount r =
      size (registered_names (Walk.walk ast) ∖ {[ Some "GLOBAL" ]}).
Proof.
  destruct (infoFlow_graph_dom ast) as (m & Hm & Hdom).
  exists (Tool.infoFlow_summary m). unfold Tool.infoFlow. rewrite Hm.
  split; [done|]. cbn [Tool.infoFlow_summary functionCount].
  rewrite flow_totals_of_count, Hdom. f_equal. set_solver.
Qed.

Example infoFlow_called_only :
  functionCount <$> Tool.infoFlow called_only_ast = Some 2.
Proof.
  unfold Tool.infoFlow. rewrite <- option_fmap_compose.
  unfold compose. cbn [Tool.infoFlow_summary functionCount].
  by vm_compute.
Qed.

(** *** The totals of a run *)

Lemma infoFlow_flow_of (ast : node) : Tool.infoFlow ast = Some (flow_of ast).
Proof. unfold flow_of. by destruct (infoFlow_total ast) as [r ->]. Qed.

Lemma sum_Z_with_app {A : Type} (f : A → Z) (l k : list A) :
  sum_Z_with f (l ++ k) = (sum_Z_with f l + sum_Z_with f k)%Z.
Proof. induction l as [|x l IH]; simpl; [done|]. rewrite IH. lia. Qed.

Lemma sum_R_with_app {A : Type} (f : A → R) (l k : list A) :
  sum_R_with f (l ++ k) = (sum_R_with f l + sum_R_with f k)%R.
Proof. induction l as [|x l IH]; simpl; [lra|]. rewrite IH. lra. Qed.

Lemma max_list_with_app {A : Type} (f : A → nat) (l k : list A) :
  max_list_with f (l ++ k) = max_list_with f l `max` max_list_with f k.
Proof. induction l as [|x l IH]; simpl; [done|]. rewrite IH. lia. Qed.

Lemma fold_left_Zadd (l : list Z) (a : Z) :
  fold_left (λ a b, a + b)%Z l a = (a + sum_Z_with (λ x, x) l)%Z.
Proof.
  revert a. induction l as [|x l IH]; intros a; simpl; [lia|].
  rewrite IH. lia.
Qed.

Lemma analysed_snoc (parse : text → option node) (files : list SourceFile)
    (f : SourceFile) :
  analysed parse (files ++ [f]) =
  analysed parse files ++
  match script_tree parse f with
  | Some ast => [(ast, code_lines f)]
  | None => []
  end.
Proof.
  unfold analysed. rewrite omap_app. f_equal. cbn.
  by destruct (script_tree parse f).
Qed.

Lemma rejected_snoc (parse : text → option node) (files : list SourceFile)
    (f : SourceFile) :
  rejected parse (files ++ [f]) =
  rejected parse files ++
  (if endsWith (path f) ".js"
   then match parse (content f) with Some _ => [] | None => [path f] end
   else []).
Proof.
  unfold rejected. rewrite omap_app. f_equal. cbn.
  destruct (endsWith _ _); [|done]. by destruct (parse _).
Qed.

(** The variables of the loop after the last file, as sums over the files. *)
Lemma fold_totals (parse : text → option node) (files : list SourceFile) :
  fold_left (Tool.process_file parse) files initial = totals_of parse files.
Proof.
  induction files as [|f files IH] using rev_ind; [reflexivity|].
  rewrite fold_left_app. cbn [fold_left]. rewrite IH. clear IH.
  unfold totals_of. rewrite analysed_snoc, rejected_snoc, map_app.
  cbn [map]. unfold Tool.process_file, script_tree.
  fold (code_lines f).
  destruct (endsWith (path f) ".js").
  2:{ rewrite !app_nil_r. reflexivity. }
  destruct (parse (content f)) as [ast|].
  2:{ rewrite !app_nil_r. reflexivity. }
  rewrite infoFlow_flow_of. rewrite !app_nil_r.
  rewrite !sum_list_with_app, !sum_R_with_app, !sum_Z_with_app,
    !max_list_with_app, length_app.
  unfold add_live, add_infoFlow, add_cc, add_halstead, push_loc.
  cbn [locArr ccTotal totalHalstead infoFlowSummary liveTotals skipped
       sum_N1 sum_N2 sum_n1 sum_n2 sum_volume sum_effort sum_time sum_bugs
       sum_functionCount sum_totalFanIn sum_totalFanOut sum_totalInfoFlow
       sum_grandTotal totalVarsDeclared totalLiveVars maxLiveVars
       totalLOCForLive liveFileCount
       sum_list_with max_list_with sum_Z_with sum_R_with foldr fst snd length].
  f_equal.
  - lia.
  - f_equal; first [lia | lra].
  - f_equal; lia.
  - f_equal; try lia. cbn [Tool.liveVariableStats loc]. lia.
Qed.

Lemma main_totals (parse : text → option node) (files : list SourceFile) :
  totals (Tool.main parse files) = totals_of parse files
  ∧ totals (Part000.main parse files) = totals_of parse files.
Proof.
  unfold Tool.main, Part000.main. cbn [totals].
  by rewrite <- totals_agree, fold_totals.
Qed.

Lemma sum_Z_with_nonneg {A : Type} (f : A → Z) (l : list A) :
  (∀ x, 0 ≤ f x)%Z → (0 ≤ sum_Z_with f l)%Z.
Proof.
  intros Hf. induction l as [|x l IH]; simpl; [lia|].
  specialize (Hf x). lia.
Qed.

Lemma sum_Z_with_map {A : Type} (f : A → Z) (l : list A) :
  sum_Z_with (λ x, x) (map f l) = sum_Z_with f l.
Proof. induction l as [|x l IH]; simpl; [done|]. by rewrite IH. Qed.

Lemma code_lines_nonneg (f : SourceFile) : (0 ≤ code_lines f)%Z.
Proof. apply locMetrics_nonneg. Qed.

Lemma totalLOC_sum (parse : text → option node) (files : list SourceFile) :
  totalLOC (Tool.main parse files) = sum_Z_with code_lines files.
Proof.
  unfold Tool.main. cbn [totalLOC]. rewrite fold_totals.
  cbn [totals_of locArr]. rewrite fold_left_Zadd, sum_Z_with_map. lia.
Qed.

(** Every file of the scan, whatever its type and whether or not it parses,
    has its code-line count pushed on [locArr] once, in the order of the
    scan; the line total is the sum of these counts and is never negative,
    and the number of files analyzed is the length of the scan. *)
Theorem main_line_totals (parse : text → option node)
    (files : list SourceFile) :
  locArr (totals (Tool.main parse files)) = map code_lines files
  ∧ totalLOC (Tool.main parse files) = sum_Z_with code_lines files
  ∧ (0 ≤ totalLOC (Tool.main parse files))%Z
  ∧ filesAnalyzed (Tool.main parse files) = length files
  ∧ locArr (totals (Part000.main parse files)) = map code_lines files
  ∧ totalLOC (Part000.main parse files) = totalLOC (Tool.main parse files).
Proof.
  destruct (main_totals parse files) as [Ht Hp]. rewrite Ht, Hp.
  rewrite totalLOC_sum.
  split; [done|]. split; [done|].
  split; [apply sum_Z_with_nonneg, code_lines_nonneg|].
  split; [done|]. split; [done|].
  unfold Part000.main. cbn [totalLOC].
  rewrite <- totals_agree, fold_totals. cbn [totals_of locArr].
  rewrite fold_left_Zadd, sum_Z_with_map. lia.
Qed.

Lemma analysed_rejected_length (parse : text → option node)
    (files : list SourceFile) :
  length (analysed parse files) + length (rejected parse files) =
  length (filter (λ f, endsWith (path f) ".js" = true) files).
Proof.
  induction files as [|f files IH] using rev_ind; [reflexivity|].
  rewrite analysed_snoc, rejected_snoc, filter_app, !length_app, <- IH.
  rewrite filter_cons, filter_nil. unfold script_tree.
  destruct (endsWith (path f) ".js"); case_decide; try done;
    [destruct (parse (content f))|]; simpl; lia.
Qed.

(** Only files whose path ends in [.js] are handed to acorn.  Each of them
    is either analysed or logged as skipped, never both; the count of
    analysed files is the number of those that parse, the log lists the
    others in order, and the total complexity is the sum over the analysed
    files, at least 1 for each. *)
Theorem main_script_accounting (parse : text → option node)
    (files : list SourceFile) :
  let t := totals (Tool.main parse files) in
  liveFileCount (liveTotals t) = length (analysed parse files)
  ∧ skipped t = rejected parse files
  ∧ liveFileCount (liveTotals t) + length (skipped t) =
      length (filter (λ f, endsWith (path f) ".js" = true) files)
  ∧ ccTotal t = sum_list_with (λ x, Tool.cyclomatic x.1) (analysed parse files)
  ∧ liveFileCount (liveTotals t) ≤ ccTotal t.
Proof.
  cbn zeta. destruct (main_totals parse files) as [-> _].
  cbn [totals_of liveTotals liveFileCount skipped ccTotal].
  split; [done|]. split; [done|].
  split; [apply analysed_rejected_length|]. split; [done|].
  induction (analysed parse files) as [|[ast c] A IH]; simpl; [lia|].
  pose proof (cyclomatic_decisions ast). lia.
Qed.

Lemma live_le_declared (ast : node) (c : Z) :
  live (Tool.liveVariableStats ast c) ≤ declared (Tool.liveVariableStats ast c).
Proof.
  unfold Tool.liveVariableStats. cbn [live declared].
  rewrite length_filter_elements. apply subseteq_size. set_solver.
Qed.

Lemma live_bounds (A : list (node * Z)) :
  max_list_with (λ x, live (Tool.liveVariableStats x.1 x.2)) A ≤
    sum_list_with (λ x, live (Tool.liveVariableStats x.1 x.2)) A
  ∧ sum_list_with (λ x, live (Tool.liveVariableStats x.1 x.2)) A ≤
    sum_list_with (λ x, declared (Tool.liveVariableStats x.1 x.2)) A
  ∧ sum_list_with (λ x, live (Tool.liveVariableStats x.1 x.2)) A ≤
    max_list_with (λ x, live (Tool.liveVariableStats x.1 x.2)) A * length A.
Proof.
  induction A as [|[ast c] A (H1 & H2 & H3)];
    cbn [sum_list_with max_list_with length fst snd]; [lia|].
  pose proof (live_le_declared ast c). split; [lia|]. split; [lia|nia].
Qed.

Lemma analysed_lines_le (parse : text → option node)
    (files : list SourceFile) :
  (0 ≤ sum_Z_with snd (analysed parse files) ≤ sum_Z_with code_lines files)%Z.
Proof.
  induction files as [|f files IH] using rev_ind; [simpl; lia|].
  rewrite analysed_snoc, !sum_Z_with_app. pose proof (code_lines_nonneg f).
  destruct (script_tree parse f); simpl; lia.
Qed.

(** Over a run, the peak of live variables is at most their total, which is
    at most the total of declared variables and at most the peak times the
    number of analysed files; the code lines counted for the live-variable
    table are those of the analysed files only and do not exceed the line
    total. *)
Theorem main_live_totals (parse : text → option node)
    (files : list SourceFile) :
  let t := liveTotals (totals (Tool.main parse files)) in
  maxLiveVars t ≤ totalLiveVars t
  ∧ totalLiveVars t ≤ totalVarsDeclared t
  ∧ totalLiveVars t ≤ maxLiveVars t * liveFileCount t
  ∧ totalLOCForLive t = sum_Z_with snd (analysed parse files)
  ∧ (0 ≤ totalLOCForLive t ≤ totalLOC (Tool.main parse files))%Z.
Proof.
  cbn zeta. rewrite totalLOC_sum. destruct (main_totals parse files) as [-> _].
  cbn [totals_of liveTotals maxLiveVars totalLiveVars totalVarsDeclared
       liveFileCount totalLOCForLive].
  pose proof (live_bounds (analysed parse files)) as (H1 & H2 & H3).
  pose proof (analysed_lines_le parse files). done.
Qed.

Lemma flow_of_grandTotal (ast : node) :
  grandTotal (flow_of ast) =
  totalFanIn (flow_of ast) + totalFanOut (flow_of ast)
  + totalInfoFlow (flow_of ast).
Proof.
  unfold flow_of, Tool.infoFlow.
  by destruct (Tool.infoFlow_graph ast).
Qed.

(** The grand total of a run is the sum of its three other information-flow
    totals, and each total is the sum of what [infoFlow] returns for the
    analysed files: a function name that occurs in two files is counted in
    both. *)
Theorem main_flow_totals (parse : text → option node)
    (files : list SourceFile) :
  let t := infoFlowSummary (totals (Tool.main parse files)) in
  sum_grandTotal t =
    sum_totalFanIn t + sum_totalFanOut t + sum_totalInfoFlow t
  ∧ sum_functionCount t =
    sum_list_with (λ x, functionCount (flow_of x.1)) (analysed parse files)
  ∧ sum_totalFanIn t =
    sum_list_with (λ x, totalFanIn (flow_of x.1)) (analysed parse files)
  ∧ sum_totalFanOut t =
    sum_list_with (λ x, totalFanOut (flow_of x.1)) (analysed parse files).
Proof.
  cbn zeta. destruct (main_totals parse files) as [-> _].
  cbn [totals_of infoFlowSummary sum_grandTotal sum_totalFanIn
       sum_totalFanOut sum_totalInfoFlow sum_functionCount].
  split; [|done].
  induction (analysed parse files) as [|[ast c] A IH];
    cbn [sum_list_with fst]; [done|].
  rewrite IH, flow_of_grandTotal. lia.
Qed.

Lemma ln_nonneg (x : R) : (1 <= x)%R → (0 <= ln x)%R.
Proof.
  intros [Hx|<-]; [|rewrite ln_1; lra].
  left. rewrite <- ln_1. apply ln_increasing; lra.
Qed.

Lemma or_one_ge_1 (x : R) : (x = 0 ∨ 1 <= x)%R → (1 <= or_one x)%R.
Proof. intros Hx. rewrite or_one_max by done. apply Rmax_r. Qed.

(** The index of [src/tool.js] never exceeds 171 and that of
    [src/unnamed/part_000] is never below -171: the three terms taken from
    171 are never negative. *)
Theorem MI_bounds (parse : text → option node) (files : list SourceFile) :
  (MI (Tool.main parse files) <= 171)%R
  ∧ (-171 <= MI (Part000.main parse files))%R.
Proof.
  pose proof (fold_process_file_ok parse files) as [Hv Hl].
  pose proof (sum_nonneg _ 0%Z ltac:(lia) Hl) as Hloc.
  unfold Tool.main, Part000.main. cbn [MI].
  rewrite <- !totals_agree.
  set (a := fold_left (Tool.process_file parse) files initial) in *.
  pose proof (ln_nonneg _ (or_one_ge_1 _ Hv)) as H1.
  assert (H2 : (0 <= ln (or_one (IZR (fold_left (λ a b, a + b)%Z (locArr a) 0%Z))))%R).
  { apply ln_nonneg. rewrite or_one_max_IZR by done. apply Rmax_r. }
  pose proof (pos_INR (ccTotal a)) as H3.
  split; lra.
Qed.

Lemma halstead_totals_list (A : list (node * Z)) :
  (sum_R_with (λ x, time (Tool.halstead x.1)) A * 18 =
   sum_R_with (λ x, effort (Tool.halstead x.1)) A)%R
  ∧ (sum_R_with (λ x, bugs (Tool.halstead x.1)) A * 3000 =
     sum_R_with (λ x, volume (Tool.halstead x.1)) A)%R
  ∧ (0 <= sum_R_with (λ x, volume (Tool.halstead x.1)) A)%R
  ∧ (0 <= sum_R_with (λ x, effort (Tool.halstead x.1)) A)%R
  ∧ sum_list_with (λ x, h_n1 (Tool.halstead x.1)) A ≤
    sum_list_with (λ x, h_N1 (Tool.halstead x.1)) A
  ∧ sum_list_with (λ x, h_n2 (Tool.halstead x.1)) A ≤
    sum_list_with (λ x, h_N2 (Tool.halstead x.1)) A.
Proof.
  induction A as [|[ast c] A (H1 & H2 & H3 & H4 & H5 & H6)];
    cbn [sum_R_with sum_list_with foldr fst].
  - repeat split; try lra; lia.
  - pose proof (halstead_values_nonneg ast) as (Hv & _ & _ & He & _ & _).
    destruct (halstead_walk_bounds ast) as [Hn1 Hn2].
    assert (Ht : (time (Tool.halstead ast) * 18 = effort (Tool.halstead ast))%R).
    { unfold Tool.halstead, Tool.halstead_derive. cbn [time effort]. lra. }
    assert (Hb : (bugs (Tool.halstead ast) * 3000 = volume (Tool.halstead ast))%R).
    { unfold Tool.halstead, Tool.halstead_derive. cbn [bugs volume]. lra. }
    fold (sum_R_with (λ x : node * Z, time (Tool.halstead x.1)) A).
    fold (sum_R_with (λ x : node * Z, effort (Tool.halstead x.1)) A).
    fold (sum_R_with (λ x : node * Z, bugs (Tool.halstead x.1)) A).
    fold (sum_R_with (λ x : node * Z, volume (Tool.halstead x.1)) A).
    assert (h_n1 (Tool.halstead ast) ≤ h_N1 (Tool.halstead ast)) by exact Hn1.
    assert (h_n2 (Tool.halstead ast) ≤ h_N2 (Tool.halstead ast)) by exact Hn2.
    repeat split; try lra; lia.
Qed.

(** The Halstead totals of a run are sums over the analysed files: the
    vocabulary totals add the distinct counts of each file, so an operator
    or operand that occurs in several files is counted once per file.  The
    totals keep the relations of a single file: time is effort over 18,
    bugs are volume over 3000, volume and effort are not negative, and the
    distinct counts do not exceed the occurrence counts. *)
Theorem main_halstead_totals (parse : text → option node)
    (files : list SourceFile) :
  let t := totalHalstead (totals (Tool.main parse files)) in
  sum_n1 t = sum_list_with (λ x, h_n1 (Tool.halstead x.1)) (analysed parse files)
  ∧ sum_n2 t = sum_list_with (λ x, h_n2 (Tool.halstead x.1)) (analysed parse files)
  ∧ sum_n1 t ≤ sum_N1 t
  ∧ sum_n2 t ≤ sum_N2 t
  ∧ (sum_time t * 18 = sum_effort t)%R
  ∧ (sum_bugs t * 3000 = sum_volume t)%R
  ∧ (0 <= sum_volume t)%R
  ∧ (0 <= sum_effort t)%R.
Proof.
  cbn zeta. destruct (main_totals parse files) as [-> _].
  cbn [totals_of totalHalstead sum_n1 sum_n2 sum_N1 sum_N2 sum_time
       sum_effort sum_bugs sum_volume].
  pose proof (halstead_totals_list (analysed parse files))
    as (H1 & H2 & H3 & H4 & H5 & H6).
  done.
Qed.

Lemma sum_Z_with_Permutation {A : Type} (f : A → Z) (l k : list A) :
  l ≡ₚ k → sum_Z_with f l = sum_Z_with f k.
Proof. induction 1; simpl; lia. Qed.

(** The integer totals of a run do not depend on the order in which the
    scan lists the files: the line total, the number of files, the total
    complexity, the Halstead counts, the information-flow totals and the
    live-variable totals of two scans that list the same files are the
    same. *)
Theorem main_order_independent (parse : text → option node)
    (files files' : list SourceFile) :
  files ≡ₚ files' →
  let r := Tool.main parse files in
  let r' := Tool.main parse files' in
  totalLOC r = totalLOC r'
  ∧ filesAnalyzed r = filesAnalyzed r'
  ∧ ccTotal (totals r) = ccTotal (totals r')
  ∧ sum_N1 (totalHalstead (totals r)) = sum_N1 (totalHalstead (totals r'))
  ∧ sum_N2 (totalHalstead (totals r)) = sum_N2 (totalHalstead (totals r'))
  ∧ sum_n1 (totalHalstead (totals r)) = sum_n1 (totalHalstead (totals r'))
  ∧ sum_n2 (totalHalstead (totals r)) = sum_n2 (totalHalstead (totals r'))
  ∧ infoFlowSummary (totals r) = infoFlowSummary (totals r')
  ∧ liveTotals (totals r) = liveTotals (totals r').
Proof.
  intros Hperm. cbn zeta. rewrite !totalLOC_sum.
  destruct (main_totals parse files) as [-> _].
  destruct (main_totals parse files') as [-> _].
  assert (HA : analysed parse files ≡ₚ analysed parse files')
    by (unfold analysed; by rewrite Hperm).
  unfold Tool.main. cbn [filesAnalyzed totals_of ccTotal totalHalstead
    sum_N1 sum_N2 sum_n1 sum_n2 infoFlowSummary liveTotals].
  rewrite (sum_Z_with_Permutation _ _ _ Hperm), (Permutation_length Hperm).
  rewrite (sum_Z_with_Permutation _ _ _ HA), (Permutation_length HA).
  by rewrite !HA.
Qed.

Lemma main_order_independent_witness :
  sample_files ≡ₚ reverse sample_files
  ∧ totalLOC (Tool.main parse_only_x sample_files) =
    totalLOC (Tool.main parse_only_x (reverse sample_files)).
Proof.
  split; [symmetry; apply reverse_Permutation|].
  apply (main_order_independent parse_only_x sample_files (reverse sample_files)).
  symmetry. apply reverse_Permutation.
Defined.

(** The average of live variables that both entry points print lies
    between 0 and the peak of live variables; the divisor [liveFileCount ||
    1] keeps it finite when no file was analysed. *)
Theorem average_live_bounds (parse : text → option node)
    (files : list SourceFile) :
  let t := liveTotals (totals (Tool.main parse files)) in
  (0 <= Printed.averageLiveVariables t <= INR (maxLiveVars t))%R.
Proof.
  cbn zeta. destruct (main_totals parse files) as [-> _].
  cbn [totals_of liveTotals]. unfold Printed.averageLiveVariables.
  cbn [totalLiveVars liveFileCount maxLiveVars].
  pose proof (live_bounds (analysed parse files)) as (_ & _ & H3).
  set (total := sum_list_with _ _) in *. set (peak := max_list_with _ _) in *.
  set (n := length _) in *.
  assert (Hn : (0 < INR (Printed.count_or_one n))%R).
  { apply lt_0_INR. unfold Printed.count_or_one. destruct n; lia. }
  split.
  - apply Rle_mult_inv_pos; [apply pos_INR|done].
  - apply Rmult_le_reg_r with (INR (Printed.count_or_one n)); [done|].
    unfold Rdiv. rewrite Rmult_assoc, Rinv_l by lra. rewrite Rmult_1_r.
    rewrite <- mult_INR. apply le_INR.
    unfold Printed.count_or_one. destruct n; nia.
Qed.

(** *** More on dispersion *)

Lemma variance_fold (m : R) (arr : list Z) (s : R) :
  fold_left (λ a b, num_add a (num_square (num_sub (Fin (IZR b)) (Fin m))))
    arr (Fin s) = Fin (s + sum_squares m arr).
Proof.
  revert s. induction arr as [|b arr IH]; intros s.
  - simpl. f_equal. unfold sum_squares. simpl. lra.
  - cbn [fold_left num_sub num_neg num_add num_square]. rewrite IH.
    f_equal. unfold sum_squares. cbn [sum_R_with foldr].
    fold (sum_R_with (λ b : Z, (IZR b - m) * (IZR b - m))%R arr). lra.
Qed.

Lemma sum_squares_nonneg (m : R) (arr : list Z) : (0 <= sum_squares m arr)%R.
Proof.
  unfold sum_squares. induction arr as [|b arr IH]; simpl; [lra|].
  pose proof (Rle_0_sqr (IZR b - m)) as Hsq. unfold Rsqr in Hsq. lra.
Qed.

(** On a list that is not empty [dispersion] returns the mean, the
    population variance (the sum of squared distances from the mean over the
    number of elements, not over that number less one) and its square root;
    all three are finite and the variance is not negative. *)
Theorem dispersion_nonempty (arr : list Z) :
  arr ≠ [] →
  let n := INR (length arr) in
  let m := (IZR (sum_Z_with (λ x, x) arr) / n)%R in
  mean (Tool.dispersion arr) = Fin m
  ∧ variance (Tool.dispersion arr) = Fin (sum_squares m arr / n)
  ∧ stdDev (Tool.dispersion arr) = Fin (sqrt (sum_squares m arr / n))
  ∧ (0 <= sum_squares m arr / n)%R.
Proof.
  intros Harr n m. unfold Tool.dispersion. cbn [mean variance stdDev].
  assert (Hlen : is_zero (INR (length arr)) = false).
  { rewrite is_zero_INR. case_bool_decide; [|done]. by destruct arr. }
  assert (Hpos : (0 < n)%R).
  { apply lt_0_INR. destruct arr; [done|apply Nat.lt_0_succ]. }
  assert (Hmean : num_div (Fin (IZR (fold_left (λ a b, a + b)%Z arr 0%Z)))
                    (Fin (INR (length arr))) = Fin m).
  { unfold num_div. rewrite Hlen. unfold m, n.
    by rewrite fold_left_Zadd, Z.add_0_l. }
  rewrite !Hmean, variance_fold. unfold num_div. rewrite Hlen.
  rewrite Rplus_0_l. fold n.
  assert (Hv : (0 <= sum_squares m arr / n)%R).
  { apply Rle_mult_inv_pos; [apply sum_squares_nonneg|done]. }
  split; [done|]. split; [done|]. split; [|done].
  unfold num_sqrt, is_negative. destruct (Rlt_dec _ 0); [lra|done].
Qed.

Lemma dispersion_nonempty_witness :
  [3; 5]%Z ≠ []
  ∧ mean (Tool.dispersion [3; 5]%Z) =
    Fin (IZR (sum_Z_with (λ x, x) [3; 5]%Z) / INR (length [3; 5]%Z)).
Proof.
  split; [done|]. apply (dispersion_nonempty [3; 5]%Z). done.
Defined.

Lemma sum_constant (x : Z) (k : nat) :
  sum_Z_with (λ x, x) (replicate k x) = (Z.of_nat k * x)%Z.
Proof. induction k as [|k IH]; simpl; [lia|]. rewrite IH. lia. Qed.

Lemma sum_squares_constant (x : Z) (k : nat) :
  sum_squares (IZR x) (replicate k x) = 0%R.
Proof.
  unfold sum_squares. induction k as [|k IH]; simpl; [done|].
  rewrite IH. lra.
Qed.

(** When every file has the same number of code lines, one file included,
    the mean is that number and variance and standard deviation are 0. *)
Theorem dispersion_constant (x : Z) (k : nat) :
  Tool.dispersion (replicate (S k) x) =
  {| mean := Fin (IZR x); variance := Fin 0; stdDev := Fin 0 |}.
Proof.
  assert (Hne : replicate (S k) x ≠ []) by done.
  assert (Hm : (IZR (sum_Z_with (λ x, x) (replicate (S k) x))
                / INR (length (replicate (S k) x)) = IZR x)%R).
  { rewrite sum_constant, length_replicate, mult_IZR, <- INR_IZR_INZ.
    assert (0 < INR (S k))%R by (apply lt_0_INR; lia). field. lra. }
  assert (Hd : ∃ m v, (m, v) = (IZR x, 0%R)
    ∧ mean (Tool.dispersion (replicate (S k) x)) = Fin m
    ∧ variance (Tool.dispersion (replicate (S k) x)) = Fin v
    ∧ stdDev (Tool.dispersion (replicate (S k) x)) = Fin (sqrt v)).
  { unfold Tool.dispersion. cbn [mean variance stdDev].
    assert (Hlen : is_zero (INR (length (replicate (S k) x))) = false).
    { rewrite is_zero_INR, length_replicate. by case_bool_decide. }
    assert (Hmean : num_div
        (Fin (IZR (fold_left (λ a b, a + b)%Z (replicate (S k) x) 0%Z)))
        (Fin (INR (length (replicate (S k) x)))) = Fin (IZR x)).
    { unfold num_div. rewrite Hlen, fold_left_Zadd, Z.add_0_l. f_equal.
      exact Hm. }
    rewrite !Hmean, variance_fold, sum_squares_constant.
    unfold num_div. rewrite Hlen.
    assert (Hz : ((0 + 0) / INR (length (replicate (S k) x)) = 0)%R)
      by (unfold Rdiv; lra).
    rewrite Hz. exists (IZR x), 0%R. split; [done|]. split; [done|].
    split; [done|]. unfold num_sqrt, is_negative.
    destruct (Rlt_dec 0 0); [lra|done]. }
  destruct Hd as (m & v & [= -> ->] & H1 & H2 & H3).
  destruct (Tool.dispersion _) as [a b c]. cbn in *. subst.
  by rewrite sqrt_0.
Qed.

(** *** The visits of a walk are typed *)

Section typed_visits.
Variable walk : node → list visit.

Lemma typed_c_Expression (n : node) :
  Forall typed (walk n) → Forall typed (Walk.c_Expression walk n).
Proof.
  intros H. apply Forall_app. split; [done|].
  apply Forall_singleton. by right.
Qed.

Lemma typed_c_Statement (n : node) :
  Forall typed (walk n) → Forall typed (Walk.c_Statement walk n).
Proof.
  intros H. apply Forall_app. split; [done|].
  apply Forall_singleton. by right.
Qed.

Lemma typed_c_Pattern (n : node) :
  Forall typed (walk n) → Forall typed (Walk.c_Pattern walk n).
Proof.
  intros H. apply Forall_app. split; [|apply Forall_singleton; by right].
  destruct n; try done.
  - apply Forall_singleton. by right.
  - apply Forall_app. split; [done|]. apply Forall_singleton. by right.
Qed.

Lemma typed_c_ForInit (n : node) :
  Forall typed (walk n) → Forall typed (Walk.c_ForInit walk n).
Proof.
  intros H. apply Forall_app. split; [|apply Forall_singleton; by right].
  destruct n; try by apply typed_c_Expression. done.
Qed.
End typed_visits.

Lemma typed_flat_map (f : node → list visit) (l : list node) :
  Forall (λ n, Forall typed (f n)) l → Forall typed (flat_map f l).
Proof.
  induction 1 as [|n l Hn _ IH]; [constructor|].
  cbn [flat_map]. apply Forall_app. by split.
Qed.

Lemma typed_flat_map_opt (f : option node → list visit)
    (l : list (option node)) :
  Forall (λ o, Forall typed (f o)) l → Forall typed (flat_map f l).
Proof.
  induction 1 as [|n l Hn _ IH]; [constructor|].
  cbn [flat_map]. apply Forall_app. by split.
Qed.

Ltac typed_children IH :=
  repeat first
    [ apply Forall_nil_2
    | apply typed_c_Expression
    | apply typed_c_Statement
    | apply typed_c_Pattern
    | apply typed_c_ForInit
    | apply IH
    | apply Forall_singleton; by (left + right)
    | apply Forall_app; split
    | match goal with
      | |- Forall typed (Walk.c_opt _ ?o) => destruct o; cbn [Walk.c_opt]
      | |- Forall typed (if ?b then _ else _) => destruct b
      | |- Forall typed (match node_id ?d with _ => _ end) =>
          destruct (node_id d)
      end ].

(** Every visitor call of a walk is made under the type of the node it
    passes or under one of the override keys: a callback registered for a
    node type only ever receives nodes of that type. *)
Lemma walk_typed : ∀ n : node, Forall typed (Walk.walk n).
Proof.
  fix IH 1. intros n. destruct n; cbn [Walk.walk]; cbn zeta;
    typed_children IH;
    try (apply typed_flat_map;
         match goal with
         | |- Forall _ ?l =>
             induction l as [|x l' IHl]; constructor;
             [typed_children IH|exact IHl]
         end);
    try (apply typed_flat_map_opt;
         match goal with
         | |- Forall _ ?l =>
             induction l as [|x l' IHl]; constructor;
             [typed_children IH|exact IHl]
         end).
  (* object patterns: the properties are walked in place *)
  all: destruct x; typed_children IH.
Qed.




Example liveVariableStats_destructuring :
  Tool.liveVariableStats destructuring_ast 2 =
  {| declared := 1; live := 0; loc := 2 |}.
Proof. vm_compute. reflexivity. Qed.


(** *** Bounds on the fan totals *)

Lemma flow_totals_of_bound (D : gset (option string))
    (m : gmap (option string) FunctionNode) :
  (∀ k d, m !! k = Some d → fanIn d ⊆ D ∧ fanOut d ⊆ D) →
  t_totalFanIn (Tool.flow_totals_of m) ≤
    t_functionCount (Tool.flow_totals_of m) * size D
  ∧ t_totalFanOut (Tool.flow_totals_of m) ≤
    t_functionCount (Tool.flow_totals_of m) * size D.
Proof.
  induction m as [|name data m Hname IH] using map_ind; intros Hm.
  - unfold Tool.flow_totals_of. rewrite map_fold_empty. simpl. lia.
  - rewrite flow_totals_of_insert by done. cbn zeta.
    destruct IH as [IH1 IH2].
    { intros k d Hk. apply (Hm k d). rewrite lookup_insert_ne; [done|].
      intros ->. congruence. }
    destruct (Hm name data) as [Hi Ho]; [by rewrite lookup_insert_eq|].
    apply subseteq_size in Hi, Ho.
    case_bool_decide; [done|].
    cbn [t_totalFanIn t_totalFanOut t_functionCount]. lia.
Qed.

(** Callers and callees are keys of the map, so for a file with [k]
    functions the total fan-in and the total fan-out are at most [k (k+1)],
    and the two averages [infoFlow] returns lie between 0 and [k + 1]. *)
Theorem infoFlow_fan_bounds (ast : node) :
  ∃ r, Tool.infoFlow ast = Some r
    ∧ totalFanIn r ≤ functionCount r * (functionCount r + 1)
    ∧ totalFanOut r ≤ functionCount r * (functionCount r + 1)
    ∧ (0 <= avgFanIn r <= INR (functionCount r + 1))%R
    ∧ (0 <= avgFanOut r <= INR (functionCount r + 1))%R.
Proof.
  destruct (infoFlow_graph_ok ast) as (m & Hm & [Hsym Hout Hin _] & _).
  destruct (infoFlow_graph_dom ast) as (m' & Hm' & Hdom).
  rewrite Hm in Hm'. injection Hm' as <-.
  exists (Tool.infoFlow_summary m). unfold Tool.infoFlow. rewrite Hm.
  split; [done|].
  destruct (flow_totals_of_bound (dom m) m) as [Hi Ho].
  { intros k d Hk. split; intros x Hx; apply elem_of_dom; eauto. }
  assert (Hsize : size (dom m) =
                  t_functionCount (Tool.flow_totals_of m) + 1).
  { rewrite flow_totals_of_count.
    replace (dom m) with ({[ Some "GLOBAL" ]} ∪ (dom m ∖ {[ Some "GLOBAL" ]})
                          : gset (option string)) at 1.
    2:{ apply set_eq. intros x. rewrite elem_of_union, elem_of_difference,
          elem_of_singleton. split.
        - intros [->|[]]; [|done]. rewrite Hdom. set_solver.
        - destruct (decide (x = Some "GLOBAL")); [by left|by right]. }
    rewrite size_add, decide_False by set_solver. lia. }
  rewrite Hsize in Hi, Ho.
  cbn [Tool.infoFlow_summary totalFanIn totalFanOut functionCount
       avgFanIn avgFanOut].
  set (t := Tool.flow_totals_of m) in *.
  split; [done|]. split; [done|].
  assert (Havg : ∀ total, total ≤ t_functionCount t * (t_functionCount t + 1) →
    (0 <= (if t_functionCount t is 0 then 0
           else INR total / INR (t_functionCount t))
       <= INR (t_functionCount t + 1))%R).
  { intros total Htotal. destruct (t_functionCount t) as [|k] eqn:Hk.
    - split; [lra|apply pos_INR].
    - assert (0 < INR (S k))%R by (apply lt_0_INR; lia). split.
      + apply Rle_mult_inv_pos; [apply pos_INR|done].
      + apply Rmult_le_reg_r with (INR (S k)); [done|].
        unfold Rdiv. rewrite Rmult_assoc, Rinv_l by lra. rewrite Rmult_1_r.
        rewrite <- mult_INR. apply le_INR. lia. }
  split; by apply Havg.
Qed.

(** *** Visits and constructs *)

Lemma tally_nil (q : visit → bool) : tally q [] = 0.
Proof. reflexivity. Qed.

Lemma tally_cons (q : visit → bool) (v : visit) (l : list visit) :
  tally q (v :: l) = (if q v then 1 else 0) + tally q l.
Proof.
  unfold tally. rewrite filter_cons.
  destruct (decide (q v = true)) as [->|H]; [reflexivity|].
  by destruct (q v).
Qed.

Lemma tally_app (q : visit → bool) (l1 l2 : list visit) :
  tally q (l1 ++ l2) = tally q l1 + tally q l2.
Proof. unfold tally. by rewrite filter_app, length_app. Qed.

Lemma tally_ext (q1 q2 : visit → bool) (l : list visit) :
  Forall (λ v, q1 v = q2 v) l → tally q1 l = tally q2 l.
Proof.
  induction 1 as [|v l Hv _ IH]; [reflexivity|].
  by rewrite !tally_cons, Hv, IH.
Qed.

Lemma count_in_cons (p : node → bool) (n : node) (l : list node) :
  count_in p (n :: l) = (if p n then 1 else 0) + count_in p l.
Proof.
  unfold count_in. rewrite filter_cons.
  destruct (decide (p n = true)) as [->|H]; [reflexivity|].
  by destruct (p n).
Qed.

Lemma count_in_app (p : node → bool) (l1 l2 : list node) :
  count_in p (l1 ++ l2) = count_in p l1 + count_in p l2.
Proof. unfold count_in. by rewrite filter_app, length_app. Qed.

(** No node type is one of the override keys. *)
Lemma override_not_type (k : string) (n : node) :
  is_override k = true → String.eqb k (node_type n) = false.
Proof.
  unfold is_override, includes. cbn [existsb].
  rewrite !orb_true_iff, !String.eqb_eq.
  intros H. decompose [or] H; subst; try done; by destruct n.
Qed.

Section constructs.
Variable p : node → bool.
Hypothesis p_uncounted : ∀ n, uncounted n = true → p n = false.

Lemma tally_own (n : node) :
  tally (own p) [(node_type n, n)] = if p n then 1 else 0.
Proof.
  rewrite tally_cons, tally_nil. unfold own. cbn [fst snd].
  rewrite String.eqb_refl. cbn [andb]. lia.
Qed.

Lemma tally_override (k : string) (n : node) :
  is_override k = true → tally (own p) [(k, n)] = 0.
Proof.
  intros H. rewrite tally_cons, tally_nil. unfold own. cbn [fst snd].
  by rewrite (override_not_type k n H).
Qed.

Lemma tally_c_Expression (w : node → list visit) (n : node) :
  tally (own p) (Walk.c_Expression w n) = tally (own p) (w n).
Proof.
  unfold Walk.c_Expression. rewrite tally_app, tally_override by done. lia.
Qed.

Lemma tally_c_Statement (w : node → list visit) (n : node) :
  tally (own p) (Walk.c_Statement w n) = tally (own p) (w n).
Proof.
  unfold Walk.c_Statement. rewrite tally_app, tally_override by done. lia.
Qed.

Lemma tally_c_Pattern (n : node) :
  tally (own p) (Walk.c_Pattern Walk.walk n) = tally (own p) (Walk.walk n).
Proof.
  unfold Walk.c_Pattern. rewrite tally_app, (tally_override "Pattern") by done.
  destruct n; try lia.
  - rewrite tally_override by done. cbn [Walk.walk app].
    rewrite tally_own, p_uncounted by done. lia.
  - rewrite tally_app, tally_override by done. lia.
Qed.

Lemma tally_c_ForInit (n : node) :
  tally (own p) (Walk.c_ForInit Walk.walk n) = tally (own p) (Walk.walk n).
Proof.
  unfold Walk.c_ForInit. rewrite tally_app, (tally_override "ForInit") by done.
  destruct n; rewrite ?tally_c_Expression; lia.
Qed.

(** A name is the only node of its tree, and it is not counted. *)
Lemma count_name (n : node) :
  is_name n = true → count_in p (subnodes n) = 0.
Proof.
  intros H. assert (p n = false) as Hp.
  { apply p_uncounted. unfold uncounted. by rewrite H. }
  destruct n; try discriminate H; cbn [subnodes];
    by rewrite count_in_cons, Hp.
Qed.

Lemma count_in_nil : count_in p [] = 0.
Proof. reflexivity. Qed.

(** The members of a list field are walked one by one. *)
Ltac split_names :=
  repeat match goal with
  | H : Forall _ (_ ++ _) |- _ => apply Forall_app in H as [? ?]
  | H : Forall _ [] |- _ => clear H
  end.

Ltac sum_visits :=
  rewrite ?tally_app, ?count_in_app, ?tally_c_Expression, ?tally_c_Statement,
    ?tally_c_Pattern, ?tally_c_ForInit, ?tally_nil, ?count_in_nil,
    ?(tally_override "Function"), ?(tally_override "Class") by done.

Ltac list_children IH H l :=
  clear -IH H p_uncounted;
  induction l as [|x l' IHl]; [reflexivity|];
  cbn [flat_map] in *; apply Forall_app in H as [Hx Hl];
  rewrite tally_app, count_in_app, (IHl Hl); f_equal;
  try (destruct x as [x|]; cbn [Walk.c_opt opt_nodes]; [|reflexivity]);
  sum_visits; exact (IH x Hx).

Ltac children IH :=
  repeat match goal with o : option node |- _ => destruct o end;
  repeat match goal with b : bool |- _ => destruct b end;
  cbn [Walk.c_opt opt_nodes names_in_place orb] in *;
  try match goal with |- context [node_id ?d] => destruct (node_id d) end;
  split_names; sum_visits;
  repeat match goal with
  | H : is_name ?x = true |- _ => pose proof (count_name x H); clear H
  | H : Forall _ (subnodes ?x) |- _ => pose proof (IH x H); clear H
  | H : Forall _ (flat_map _ ?l) |- context [tally _ (flat_map ?F ?l)] =>
      assert (tally (own p) (flat_map F l) = count_in p (flat_map subnodes l))
        by (list_children IH H l);
      clear H
  | H : Forall _ (flat_map (opt_nodes subnodes) ?l)
      |- context [tally _ (flat_map ?F ?l)] =>
      assert (tally (own p) (flat_map F l) =
              count_in p (flat_map (opt_nodes subnodes) l))
        by (list_children IH H l);
      clear H
  end;
  lia.

Lemma walk_counts :
  ∀ n : node, Forall (λ m, names_in_place m = true) (subnodes n) →
    tally (own p) (Walk.walk n) = count_in p (subnodes n).
Proof.
  fix IH 1. intros n Hwf.
  destruct n; cbn [Walk.walk subnodes] in *; cbn zeta;
    rewrite tally_app, tally_own, count_in_cons;
    apply Forall_cons in Hwf as [Hn Hwf];
    try solve [children IH].
  (* object patterns: the members are walked in place *)
  cbn [names_in_place] in Hn.
  match goal with
  | |- tally _ ?visits + _ = _ =>
      assert (tally (own p) visits =
              count_in p (flat_map subnodes properties)) as E; [|lia]
  end.
  clear -IH Hn Hwf p_uncounted.
  induction properties as [|x l IHl]; [reflexivity|].
  cbn [flat_map forallb] in *.
  apply andb_prop in Hn as [Hx Hl]. apply Forall_app in Hwf as [Hwx Hwl].
  rewrite tally_app, count_in_app, (IHl Hl Hwl). f_equal.
  destruct x; try discriminate Hx; cbn [subnodes] in *;
    rewrite count_in_cons, p_uncounted by done;
    apply Forall_cons in Hwx as [Hnx Hwx]; children IH.
Qed.

End constructs.

Lemma well_formed_names (ast : node) :
  well_formed ast = true →
  Forall (λ m, names_in_place m = true) (subnodes ast).
Proof.
  unfold well_formed. intros H. apply Forall_forall. intros x Hx.
  apply (proj1 (forallb_forall _ _) H). by apply list_elem_of_In.
Qed.

(** A callback registered under a node type is called once for each node of
    that type: under a key that is not an override, the visits are the
    visits of the nodes of that type. *)
Lemma has_type_own (type : string) (v : visit) :
  is_override type = false → typed v →
  has_type type v = own (of_type type) v.
Proof.
  destruct v as [k n]. unfold has_type, own, of_type, typed. cbn [fst snd].
  intros Ht [->|Hk].
  - by rewrite String.eqb_refl.
  - rewrite (override_not_type k n Hk). cbn [andb].
    destruct (String.eqb_spec k type); [subst; congruence|done].
Qed.

Lemma count_visits_nodes (type : string) (ast : node) :
  is_override type = false →
  (∀ n, uncounted n = true → of_type type n = false) →
  well_formed ast = true →
  count_visits (has_type type) ast = count_nodes (of_type type) ast.
Proof.
  intros Ht Hp Hwf. unfold count_visits, count_nodes.
  rewrite <- (walk_counts _ Hp ast (well_formed_names ast Hwf)).
  apply (tally_ext (has_type type) (own (of_type type))).
  eapply Forall_impl; [apply walk_typed|].
  intros v Hv. by apply has_type_own.
Qed.

Lemma count_and_or_nodes (ast : node) :
  well_formed ast = true →
  count_visits is_and_or ast = count_nodes is_short_circuit ast.
Proof.
  intros Hwf. unfold count_visits, count_nodes.
  rewrite <- (walk_counts is_short_circuit) by
    (by apply well_formed_names || (intros n Hn; by destruct n)).
  apply (tally_ext is_and_or (own is_short_circuit)).
  eapply Forall_impl; [apply walk_typed|].
  intros v Hv. unfold is_and_or. rewrite (has_type_own _ v) by done.
  unfold own, is_short_circuit. by rewrite andb_assoc.
Qed.

(** What the counted node types are in [decisions_ast]: one [if], one
    [for], one [while], two of the three logical expressions, and one
    conditional expression; the [switch] case, the handler and the [??] are
    not counted. *)
Example cyclomatic_decisions_ast :
  Tool.cyclomatic decisions_ast = 7
  ∧ count_nodes (of_type "IfStatement") decisions_ast = 1
  ∧ count_nodes (of_type "ForStatement") decisions_ast = 1
  ∧ count_nodes (of_type "WhileStatement") decisions_ast = 1
  ∧ count_nodes (of_type "LogicalExpression") decisions_ast = 3
  ∧ count_nodes is_short_circuit decisions_ast = 2
  ∧ count_nodes (of_type "ConditionalExpression") decisions_ast = 1
  ∧ count_nodes (of_type "SwitchCase") decisions_ast = 1
  ∧ count_nodes (of_type "CatchClause") decisions_ast = 1.
Proof. vm_compute. repeat split. Qed.

(** The walker does not descend into a label: on a tree that has an
    expression there, which no parser builds, that expression is not
    counted. *)
Example cyclomatic_misplaced_ast :
  well_formed misplaced_ast = false
  ∧ Tool.cyclomatic misplaced_ast = 1
  ∧ count_nodes (of_type "ConditionalExpression") misplaced_ast = 1.
Proof. vm_compute. repeat split. Qed.

(** C7: for every syntax tree with names where ESTree has names, the
    cyclomatic complexity is 1 plus the number of [if] statements of the
    tree, plus the number of its [for] statements, plus the number of its
    [while] statements, plus the number of its logical expressions with
    operator [&&] or [||], plus the number of its conditional expressions,
    each counted over all the nodes of the tree; no other node is counted.
    The result is at least 1 for every tree, and both entry points compute
    the same number. *)
Theorem cyclomatic_formula (ast : node) :
  (well_formed ast = true →
   Tool.cyclomatic ast =
     1 + count_nodes (of_type "IfStatement") ast
       + count_nodes (of_type "ForStatement") ast
       + count_nodes (of_type "WhileStatement") ast
       + count_nodes is_short_circuit ast
       + count_nodes (of_type "ConditionalExpression") ast)
  ∧ 1 ≤ Tool.cyclomatic ast
  ∧ Part000.cyclomatic ast = Tool.cyclomatic ast.
Proof.
  split; [|split; [rewrite cyclomatic_decisions; lia|reflexivity]].
  intros Hwf. rewrite cyclomatic_decisions, count_decisions_split.
  rewrite !count_visits_nodes, count_and_or_nodes;
    try done; intros n Hn; by destruct n.
Qed.

Lemma cyclomatic_formula_witness :
  well_formed decisions_ast = true
  ∧ Tool.cyclomatic decisions_ast =
      1 + count_nodes (of_type "IfStatement") decisions_ast
        + count_nodes (of_type "ForStatement") decisions_ast
        + count_nodes (of_type "WhileStatement") decisions_ast
        + count_nodes is_short_circuit decisions_ast
        + count_nodes (of_type "ConditionalExpression") decisions_ast.
Proof.
  split; [reflexivity|].
  apply (proj1 (cyclomatic_formula decisions_ast)). reflexivity.
Defined.
